(** * Wind analysis helpers of [scripts/wind_analysis.py]

    A shallow embedding of the [WindAnalysis] class: its two plotting
    methods, and the parts of numpy, pandas and matplotlib they call.

    Conventions of the embedding.
    - A float64 is the rational number it stands for ([Q]), or [NaN].  An
      arithmetic operation on floats is the exact operation followed by
      rounding to the nearest number of 53 significant bits, ties to even
      ([round64]); the range of the exponent is not modelled, so there is
      no overflow to infinity and no subnormal number.
    - A pandas object that the code can mutate (a [DataFrame]) lives in a
      heap and is handled through its location; everything else is a value.
    - matplotlib and windrose calls are recorded, with their arguments, in
      the order in which they are made; a call is recorded when it is made,
      whether it returns or raises.  What [ax.bar] of windrose answers is a
      parameter of the development, as is the colormap registry.
    - A call either raises an exception or returns a value ([result]). *)

From Stdlib Require Import Ascii QArith Qround Qabs Lqa.
From stdpp Require Import base list strings gmap pretty.

Local Open Scope Z_scope.

(** ** Exceptions *)

Inductive exception :=
| KeyError
| ValueError
| TypeError
| IndexError
| SystemError.

Inductive result (A : Type) : Type :=
| Raise (e : exception)
| Ok (a : A).
Arguments Raise {A} e.
Arguments Ok {A} a.

Global Instance result_ret : MRet result := λ A a, Ok a.
Global Instance result_bind : MBind result := λ A B k r,
  match r with
  | Raise e => Raise e
  | Ok a => k a
  end.

(** [l[i]] on a Python list or numpy array, for [i >= 0]. *)
Definition getitem {A} (l : list A) (i : nat) : result A :=
  match l !! i with
  | Some x => Ok x
  | None => Raise IndexError
  end.

(** ** Cells, columns and frames *)

Inductive cell :=
| NaN
| Num (q : Q).

Definition notna (c : cell) : bool :=
  match c with
  | NaN => false
  | Num _ => true
  end.

(** A column is numeric or categorical; a categorical column carries its
    ordered categories and one code per row, [None] for a missing value. *)
Inductive column :=
| NumCol (values : list cell)
| CatCol (categories : list string) (codes : list (option nat)).

Abbreviation DataFrame := (list (string * column)).

(** The label of an entry of a [Series] index. *)
Inductive index_label :=
| LStr (s : string)
| LNum (q : Q).

Abbreviation Series := (list (index_label * cell)).

Definition series_values (s : Series) : list cell := snd <$> s.
Definition series_index (s : Series) : list index_label := fst <$> s.

Definition col_length (c : column) : nat :=
  match c with
  | NumCol v => length v
  | CatCol _ codes => length codes
  end.

Definition col_notna (c : column) : list bool :=
  match c with
  | NumCol v => notna <$> v
  | CatCol _ codes =>
      (λ o : option nat, match o with Some _ => true | None => false end)
        <$> codes
  end.

(** Boolean-mask indexing. *)
Fixpoint compress {A} (mask : list bool) (l : list A) : list A :=
  match mask, l with
  | b :: mask', x :: l' =>
      if b then x :: compress mask' l' else compress mask' l'
  | _, _ => []
  end.

Definition col_compress (mask : list bool) (c : column) : column :=
  match c with
  | NumCol v => NumCol (compress mask v)
  | CatCol cats codes => CatCol cats (compress mask codes)
  end.

Definition nrows (df : DataFrame) : nat :=
  match df with
  | [] => O
  | (_, c) :: _ => col_length c
  end.

Definition columns_named (name : string) (df : DataFrame) : DataFrame :=
  filter (λ nc, nc.1 = name) df.

(** [df[name]]: a column; a name carried by several columns selects a
    frame, which none of the callers below accepts. *)
Definition df_getitem (df : DataFrame) (name : string) : result column :=
  match columns_named name df with
  | [] => Raise KeyError
  | [(_, c)] => Ok c
  | _ => Raise ValueError
  end.

(** [df[[n1, n2, ...]]]: a new frame with the named columns, in the order of
    the names. *)
Definition df_getitem_list (df : DataFrame) (names : list string)
  : result DataFrame :=
  css ← mapM (λ n, match columns_named n df with
                    | [] => Raise KeyError
                    | cs => Ok cs
                    end) names;
  Ok (concat css).

(** [df.dropna()]: the rows without a missing value in any column. *)
Definition row_mask (df : DataFrame) : list bool :=
  foldr (λ nc m, zip_with andb (col_notna nc.2) m)
        (replicate (nrows df) true) df.

Definition dropna (df : DataFrame) : DataFrame :=
  let mask := row_mask df in
  (λ nc : string * column, (nc.1, col_compress mask nc.2)) <$> df.

(** [df[name] = c]: replaces the column of that name, or appends one. *)
Definition df_setitem (df : DataFrame) (name : string) (c : column)
  : DataFrame :=
  match columns_named name df with
  | [] => df ++ [(name, c)]
  | _ => (λ nc : string * column,
            if decide (nc.1 = name) then (name, c) else nc) <$> df
  end.

(** ** float64 arithmetic *)

(** [x * 2^s]. *)
Definition scale2 (x : Q) (s : Z) : Q :=
  if 0 <=? s then Z.shiftl (Qnum x) s # Qden x
  else Qnum x # Z.to_pos (Z.shiftl (Z.pos (Qden x)) (- s)).

(** The integer nearest to [num / den], the even one of two that are
    equally near, for [0 < den]. *)
Definition rne (num den : Z) : Z :=
  let '(m, r) := Z.div_eucl num den in
  match 2 * r ?= den with
  | Lt => m
  | Gt => m + 1
  | Eq => if Z.even m then m else m + 1
  end.

(** The exponent [e] with [2^e <= x < 2^(e+1)], for [0 < x]. *)
Definition ilog2 (x : Q) : Z :=
  let e0 := Z.log2 (Qnum x) - Z.log2 (Z.pos (Qden x)) in
  if Qle_bool 1 (scale2 x (- e0)) then e0 else e0 - 1.

(** [p / d] in lower terms, for [d] a power of two. *)
Fixpoint strip2 (p d : positive) : positive * positive :=
  match p, d with
  | xO p', xO d' => strip2 p' d'
  | _, _ => (p, d)
  end.

(** [m * 2^e], in lowest terms. *)
Definition dyadic (m e : Z) : Q :=
  if 0 <=? e then inject_Z (Z.shiftl m e)
  else
    match m with
    | Z0 => 0%Q
    | Zpos p => let '(p', d') := strip2 p (Z.to_pos (Z.shiftl 1 (- e))) in
                Zpos p' # d'
    | Zneg p => let '(p', d') := strip2 p (Z.to_pos (Z.shiftl 1 (- e))) in
                Zneg p' # d'
    end.

(** The float64 nearest to [x], for [0 < x]: [x] is brought between
    [2^52] and [2^53], rounded to an integer and brought back. *)
Definition round64_pos (x : Q) : Q :=
  let s := 52 - ilog2 x in
  let scaled := scale2 x s in
  match Qnum scaled with
  | Zpos p =>
      let '(num, den) := strip2 p (Qden scaled) in
      dyadic (rne (Zpos num) (Zpos den)) (- s)
  | _ => 0%Q
  end.

(** The float64 nearest to [x]. *)
Definition round64 (x : Q) : Q :=
  match Qnum x with
  | Z0 => 0%Q
  | Zpos _ => round64_pos x
  | Zneg _ => (- round64_pos (- x))%Q
  end.

Definition fadd (x y : Q) : Q := round64 (x + y).
Definition fsub (x y : Q) : Q := round64 (x - y).
Definition fmul (x y : Q) : Q := round64 (x * y).
Definition fdiv (x y : Q) : Q := round64 (x / y).

(** ** numpy *)

(** The float64 [np.pi], which is this rational number. *)
Definition np_pi : Q := 884279719003555 # 281474976710656.

(** [np.linspace(start, stop, num, endpoint)], for float64 [start] and
    [stop].  The integers [num] and [div] are below [2^53] in every call
    that can be made, and are then floats as they are. *)
Definition np_linspace (start stop : Q) (num : Z) (endpoint : bool)
  : result (list Q) :=
  if num <? 0 then Raise ValueError
  else
    let div := if endpoint then num - 1 else num in
    let delta := fsub stop start in
    let y := seqZ 0 num in
    let y :=
      if 0 <? div then
        let step := fdiv delta (inject_Z div) in
        if Qeq_bool step 0
        then (λ i, fmul (fdiv (inject_Z i) (inject_Z div)) delta) <$> y
        else (λ i, fmul (inject_Z i) step) <$> y
      else (λ i, fmul (inject_Z i) delta) <$> y in
    let y := (λ v, fadd v start) <$> y in
    Ok (if endpoint && (1 <? num)
        then <[Nat.pred (length y) := stop]> y
        else y).

(** [a.searchsorted(v, side)] on an array in increasing order: the number
    of leading elements that are [<= v] (side "right") or [< v] ("left"). *)
Fixpoint searchsorted_right (a : list Q) (v : Q) : nat :=
  match a with
  | [] => O
  | b :: a' => if Qle_bool b v then S (searchsorted_right a' v) else O
  end.

Fixpoint searchsorted_left (a : list Q) (v : Q) : nat :=
  match a with
  | [] => O
  | b :: a' =>
      if Qle_bool v b then O else S (searchsorted_left a' v)
  end.

(** [int(x)] of a finite float: truncation towards zero. *)
Definition int_of_float (q : Q) : Z := Z.quot (Qnum q) (Z.pos (Qden q)).

(** ** pandas: [cut] and [groupby(...)[...].mean()] *)

Fixpoint is_monotonic_increasing (a : list Q) : bool :=
  match a with
  | x :: ((y :: _) as a') => Qle_bool x y && is_monotonic_increasing a'
  | _ => true
  end.

Fixpoint is_unique (a : list Q) : bool :=
  match a with
  | [] => true
  | x :: a' => forallb (λ y, negb (Qeq_bool x y)) a' && is_unique a'
  end.

Definition cut_code (bins : list Q) (right : bool) (c : cell) : option nat :=
  match c with
  | NaN => None
  | Num q =>
      let id := if right then searchsorted_left bins q
                else searchsorted_right bins q in
      if (id =? 0)%nat || (id =? length bins)%nat then None
      else Some (Nat.pred id)
  end.

(** [pd.cut(x, bins=bins, labels=labels, right=right)] for a sequence of
    bin edges and a list of labels. *)
Definition pd_cut (x : column) (bins : list Q) (labels : list string)
    (right : bool) : result column :=
  match x with
  | CatCol _ _ => Raise TypeError
  | NumCol xs =>
      if negb (is_monotonic_increasing bins) then Raise ValueError
      else if negb (is_unique bins) && negb (length bins =? 2)%nat
      then Raise ValueError
      else if negb (bool_decide (NoDup labels)) then Raise ValueError
      else if negb (Z.of_nat (length labels) =? Z.of_nat (length bins) - 1)
      then Raise ValueError
      else Ok (CatCol labels (cut_code bins right <$> xs))
  end.

Definition nums (l : list cell) : list Q :=
  omap (λ c, match c with NaN => None | Num q => Some q end) l.

(** The sum of a group as pandas accumulates it ([group_mean] of pandas 1.3
    and later): row by row, with Kahan's compensation of the rounding
    error. *)
Fixpoint kahan_sum (sumx compensation : Q) (l : list Q) : Q :=
  match l with
  | [] => sumx
  | val :: l' =>
      let y := fsub val compensation in
      let t := fadd sumx y in
      kahan_sum t (fsub (fsub t sumx) y) l'
  end.

(** The mean of a group: missing values are skipped, and a group without a
    value has the mean [NaN]. *)
Definition mean (l : list cell) : cell :=
  match nums l with
  | [] => NaN
  | qs => Num (fdiv (kahan_sum 0 0 qs) (inject_Z (Z.of_nat (length qs))))
  end.

(** The values of the rows whose key satisfies [sel]. *)
Fixpoint group {K} (sel : K → bool) (keys : list K) (vals : list cell)
  : list cell :=
  match keys, vals with
  | k :: keys', v :: vals' =>
      if sel k then v :: group sel keys' vals' else group sel keys' vals'
  | _, _ => []
  end.

Definition code_is (k : nat) (o : option nat) : bool :=
  match o with
  | Some j => (j =? k)%nat
  | None => false
  end.

Definition key_is (k : Q) (c : cell) : bool :=
  match c with
  | Num q => Qeq_bool q k
  | NaN => false
  end.

Fixpoint insert_key (q : Q) (l : list Q) : list Q :=
  match l with
  | [] => [q]
  | x :: l' =>
      match (q ?= x)%Q with
      | Lt => q :: l
      | Eq => l
      | Gt => x :: insert_key q l'
      end
  end.

(** The distinct values of a numeric key, in increasing order. *)
Definition sorted_keys (l : list cell) : list Q :=
  foldr insert_key [] (nums l).

(** [df.groupby(by)[col].mean()].  Rows with a missing key are left out.
    A categorical key gives one group per category, in the order of the
    categories, also for a category no row has. *)
Definition groupby_mean (df : DataFrame) (by_ col : string) : result Series :=
  key ← df_getitem df by_;
  v ← df_getitem df col;
  match v with
  | CatCol _ _ => Raise TypeError
  | NumCol vs =>
      match key with
      | CatCol cats codes =>
          Ok (imap (λ k lab, (LStr lab, mean (group (code_is k) codes vs)))
                   cats)
      | NumCol ks =>
          Ok ((λ k, (LNum k, mean (group (key_is k) ks vs)))
                <$> sorted_keys ks)
      end
  end.

(** ** The interpreter state: a heap of frames and the plotting calls *)

Abbreviation loc := positive.

(** A registered colormap of matplotlib, known by its name. *)
Record colormap := Colormap { cmap_name : string }.

(** The [cmap] argument of [plot_wind_rose]: a name or a colormap object. *)
Inductive cmap_arg :=
| CmapStr (name : string)
| CmapObj (c : colormap).

Inductive event :=
| WindroseAxes_from_ax
| ax_bar (direction var : column) (normed : bool) (bins : list Q)
         (cmap : colormap)
| ax_set_legend
| plt_title (text : string) (fontsize : Z)
| plt_show
| plt_subplots_polar (figsize : Z * Z)
| ax_fill (angles : list Q) (values : list cell) (color : string) (alpha : Q)
| ax_set_xticks (ticks : list Q)
| ax_set_xticklabels (labels : list index_label) (fontsize : Z)
| ax_set_title (text : string) (fontsize : Z).

Record state := State {
  heap : gmap loc DataFrame;
  calls : list event
}.

Definition M (A : Type) : Type := state → result A * state.

Global Instance M_ret : MRet M := λ A a σ, (Ok a, σ).
Global Instance M_bind : MBind M := λ A B k m σ,
  match m σ with
  | (Raise e, σ') => (Raise e, σ')
  | (Ok a, σ') => k a σ'
  end.

Definition lift {A} (r : result A) : M A := λ σ, (r, σ).

(** A new frame object. *)
Definition new_frame (df : DataFrame) : M loc :=
  λ σ, let l := fresh (dom (heap σ)) in
       (Ok l, State (<[l := df]> (heap σ)) (calls σ)).

(** The frame behind a reference.  References of Python never dangle; the
    model answers [SystemError] for a location that holds nothing. *)
Definition read_frame (l : loc) : M DataFrame :=
  λ σ, match heap σ !! l with
       | Some df => (Ok df, σ)
       | None => (Raise SystemError, σ)
       end.

Definition write_frame (l : loc) (df : DataFrame) : M unit :=
  λ σ, (Ok tt, State (<[l := df]> (heap σ)) (calls σ)).

Definition emit (e : event) : M unit :=
  λ σ, (Ok tt, State (heap σ) (calls σ ++ [e])).

(** The pandas operations on frame objects.  Selecting columns and
    [dropna] build a new object; assigning a column changes the object it
    is applied to. *)
Definition frame_getitem_list (l : loc) (names : list string) : M loc :=
  df ← read_frame l;
  sel ← lift (df_getitem_list df names);
  new_frame sel.

Definition frame_dropna (l : loc) : M loc :=
  df ← read_frame l;
  new_frame (dropna df).

Definition frame_getitem (l : loc) (name : string) : M column :=
  df ← read_frame l;
  lift (df_getitem df name).

Definition frame_setitem (l : loc) (name : string) (c : column) : M unit :=
  df ← read_frame l;
  write_frame l (df_setitem df name c).

Definition frame_groupby_mean (l : loc) (by_ col : string) : M Series :=
  df ← read_frame l;
  lift (groupby_mean df by_ col).

(** ** The class [WindAnalysis] *)

Record WindAnalysis := { data : loc }.

(** [WindAnalysis(data)]: the object keeps the reference it is given. *)
Definition init (data : loc) : WindAnalysis := {| data := data |}.

Definition default_bins : list Q := [0; 1; 2; 3; 5; 10; 15; 20]%Q.

(** The labels [f"{int(bin_edges[i])}-{int(bin_edges[i + 1])}"] for [i] in
    [range(num_bins)]. *)
Definition sector_label (lo hi : Q) : string :=
  pretty (int_of_float lo) +:+ "-" +:+ pretty (int_of_float hi).

Definition sector_labels (bin_edges : list Q) (num_bins : Z)
  : result (list string) :=
  mapM (λ i : Z,
          lo ← getitem bin_edges (Z.to_nat i);
          hi ← getitem bin_edges (Z.to_nat (i + 1));
          Ok (sector_label lo hi))
       (seqZ 0 num_bins).

Section WindAnalysis.

(** [matplotlib.cm.get_cmap]: the registry of colormaps is matplotlib's. *)
Variable cm_get_cmap : string → result colormap.

(** What [ax.bar] of windrose answers to its arguments: it returns, or it
    raises (it rejects, for one, bin edges that start above the smallest
    speed).  The checks are windrose's. *)
Variable windrose_bar :
  column → column → bool → list Q → colormap → result unit.

Definition plot_wind_rose (self : WindAnalysis)
    (wind_speed_col wind_dir_col : string) (bins : option (list Q))
    (cmap : cmap_arg) : M unit :=
  let bins := match bins with
              | None => default_bins
              | Some b => b
              end in
  sel ← frame_getitem_list (data self) [wind_speed_col; wind_dir_col];
  wind_data ← frame_dropna sel;
  cmap ← lift (match cmap with
               | CmapStr name => cm_get_cmap name
               | CmapObj c => Ok c
               end);
  emit WindroseAxes_from_ax;;
  direction ← frame_getitem wind_data wind_dir_col;
  var ← frame_getitem wind_data wind_speed_col;
  emit (ax_bar direction var true bins cmap);;
  lift (windrose_bar direction var true bins cmap);;
  emit ax_set_legend;;
  emit (plt_title "Wind Rose" 16);;
  emit plt_show.

Definition plot_radial_bar (self : WindAnalysis)
    (wind_speed_col wind_dir_col : string) (num_bins : Z) : M unit :=
  sel ← frame_getitem_list (data self) [wind_speed_col; wind_dir_col];
  wind_data ← frame_dropna sel;
  bin_edges ← lift (np_linspace 0 360 (num_bins + 1) true);
  direction ← frame_getitem wind_data wind_dir_col;
  labels ← lift (sector_labels bin_edges num_bins);
  sector ← lift (pd_cut direction bin_edges labels false);
  frame_setitem wind_data "sector" sector;;
  sector_avg ← frame_groupby_mean wind_data "sector" wind_speed_col;
  angles ← lift (np_linspace 0 (2 * np_pi) num_bins false);
  let values := series_values sector_avg in
  a0 ← lift (getitem angles 0);
  let angles := angles ++ [a0] in
  v0 ← lift (getitem values 0);
  let values := values ++ [v0] in
  emit (plt_subplots_polar (8, 8));;
  emit (ax_fill angles values "blue" (1 # 2));;
  emit (ax_set_xticks (take (Nat.pred (length angles)) angles));;
  emit (ax_set_xticklabels (series_index sector_avg) 10);;
  emit (ax_set_title "Radial Bar Plot of Wind Speed by Direction" 16);;
  emit plt_show.

End WindAnalysis.

(** ** What a call computes from the frame it is given

    The two methods touch the heap only to build [wind_data]; what they
    hand to the plotting library is a function of that frame.  The
    functions below are the bodies of the methods after the [dropna] line,
    with the frame as a value. *)

Definition radial_chart (wind_data : DataFrame)
    (wind_speed_col wind_dir_col : string) (num_bins : Z)
  : result (list event) :=
  bin_edges ← np_linspace 0 360 (num_bins + 1) true;
  direction ← df_getitem wind_data wind_dir_col;
  labels ← sector_labels bin_edges num_bins;
  sector ← pd_cut direction bin_edges labels false;
  sector_avg ← groupby_mean (df_setitem wind_data "sector" sector)
                 "sector" wind_speed_col;
  angles ← np_linspace 0 (2 * np_pi) num_bins false;
  a0 ← getitem angles 0;
  v0 ← getitem (series_values sector_avg) 0;
  Ok [plt_subplots_polar (8, 8);
      ax_fill (angles ++ [a0]) (series_values sector_avg ++ [v0])
              "blue" (1 # 2);
      ax_set_xticks (take (Nat.pred (length (angles ++ [a0])))
                          (angles ++ [a0]));
      ax_set_xticklabels (series_index sector_avg) 10;
      ax_set_title "Radial Bar Plot of Wind Speed by Direction" 16;
      plt_show].

Definition wind_rose_chart (cm_get_cmap : string → result colormap)
    (windrose_bar : column → column → bool → list Q → colormap → result unit)
    (wind_data : DataFrame) (wind_speed_col wind_dir_col : string)
    (bins : option (list Q)) (cmap : cmap_arg)
  : result unit * list event :=
  let bins := match bins with
              | None => default_bins
              | Some b => b
              end in
  match (match cmap with
         | CmapStr name => cm_get_cmap name
         | CmapObj c => Ok c
         end) with
  | Raise e => (Raise e, [])
  | Ok c =>
      match df_getitem wind_data wind_dir_col with
      | Raise e => (Raise e, [WindroseAxes_from_ax])
      | Ok direction =>
          match df_getitem wind_data wind_speed_col with
          | Raise e => (Raise e, [WindroseAxes_from_ax])
          | Ok var =>
              match windrose_bar direction var true bins c with
              | Raise e =>
                  (Raise e,
                   [WindroseAxes_from_ax; ax_bar direction var true bins c])
              | Ok _ =>
                  (Ok tt,
                   [WindroseAxes_from_ax;
                    ax_bar direction var true bins c;
                    ax_set_legend;
                    plt_title "Wind Rose" 16;
                    plt_show])
              end
          end
      end
  end.

(** ** Vocabulary of the statements *)

(** The frame [df] has exactly one column named [ws], numeric with values
    [speeds], and exactly one named [wd], numeric with values [dirs]. *)
Definition wind_columns (df : DataFrame) (ws wd : string)
    (speeds dirs : list cell) : Prop :=
  df_getitem df ws = Ok (NumCol speeds) ∧
  df_getitem df wd = Ok (NumCol dirs) ∧
  ws ≠ wd.

(** The observations of a dataset: the pairs of a speed and a direction of
    the rows where both are present. *)
Fixpoint observations (speeds dirs : list cell) : list (Q * Q) :=
  match speeds, dirs with
  | s :: speeds', d :: dirs' =>
      match s, d with
      | Num qs, Num qd => (qs, qd) :: observations speeds' dirs'
      | _, _ => observations speeds' dirs'
      end
  | _, _ => []
  end.

(** The [k]-th of the [n + 1] boundaries of [n] equal sectors of the
    circle, in degrees. *)
Definition edge (n : Z) (k : nat) : Q := (360 * inject_Z (Z.of_nat k) / inject_Z n)%Q.

Definition in_sector (n : Z) (k : nat) (d : Q) : Prop :=
  (edge n k <= d)%Q ∧ (d < edge n (S k))%Q.

(** The [k]-th element of the bin edges the code has computed. *)
Definition edge_at (edges : list Q) (k : nat) : Q := default 0%Q (edges !! k).

(** The direction [d] lies in the [k]-th bin of [edges], which has its
    lower edge and not its upper one. *)
Definition in_bin (edges : list Q) (k : nat) (d : Q) : Prop :=
  (edge_at edges k <= d)%Q ∧ (d < edge_at edges (S k))%Q.

Definition in_binb (edges : list Q) (k : nat) (d : Q) : bool :=
  Qle_bool (edge_at edges k) d && negb (Qle_bool (edge_at edges (S k)) d).

(** The speeds of the observations whose direction lies in bin [k], in the
    order of the rows. *)
Definition bin_speeds (edges : list Q) (k : nat) (obs : list (Q * Q))
  : list Q :=
  fst <$> filter (λ o, in_binb edges k o.2 = true) obs.

(** The mean speed of bin [k], missing for a bin without an observation. *)
Definition bin_mean (edges : list Q) (k : nat) (obs : list (Q * Q)) : cell :=
  mean (Num <$> bin_speeds edges k obs).

(** The label of bin [k]. *)
Definition bin_label (edges : list Q) (k : nat) : string :=
  sector_label (edge_at edges k) (edge_at edges (S k)).

Definition bin_means (edges : list Q) (n : Z) (obs : list (Q * Q))
  : list cell :=
  (λ k, bin_mean edges k obs) <$> seq 0 (Z.to_nat n).

Definition bin_ticks (edges : list Q) (n : Z) : list index_label :=
  (λ k, LStr (bin_label edges k)) <$> seq 0 (Z.to_nat n).

(** The plotting calls of a radial chart. *)
Definition chart_calls (angles : list Q) (values : list cell)
    (ticks : list Q) (labels : list index_label) : list event :=
  [plt_subplots_polar (8, 8);
   ax_fill angles values "blue" (1 # 2);
   ax_set_xticks ticks;
   ax_set_xticklabels labels 10;
   ax_set_title "Radial Bar Plot of Wind Speed by Direction" 16;
   plt_show].

(** The plotting calls of the chart of [n] sectors with the bin edges
    [edges] over the observations [obs], drawn at the angles [angles], of
    which [a0] is the first. *)
Definition radial_calls (edges : list Q) (n : Z) (obs : list (Q * Q))
    (angles : list Q) (a0 : Q) : list event :=
  chart_calls (angles ++ [a0])
              (bin_means edges n obs ++ [bin_mean edges 0 obs])
              angles (bin_ticks edges n).

(** A string without the character "-". *)
Fixpoint no_dash (s : string) : Prop :=
  match s with
  | EmptyString => True
  | String c s' => c ≠ "-"%char ∧ no_dash s'
  end.

(** An array in strictly increasing order. *)
Definition increasing (a : list Q) : Prop :=
  ∀ i j x y, a !! i = Some x → a !! j = Some y → (i < j)%nat → (x < y)%Q.

(** The integer part of each element is below that of the next but one. *)
Definition spread (a : list Q) : Prop :=
  ∀ k x z, a !! k = Some x → a !! S (S k) = Some z →
           int_of_float x < int_of_float z.

Fixpoint floors_spread (a : list Q) : bool :=
  match a with
  | x :: ((_ :: z :: _) as a') =>
      (int_of_float x <? int_of_float z) && floors_spread a'
  | _ => true
  end.

(** The [k]-th value of [np.linspace(0, stop, ...)] with [div] steps. *)
Definition linspace_value (stop : Q) (div k : Z) : Q :=
  fadd (fmul (inject_Z k) (fdiv (fsub stop 0) (inject_Z div))) 0.

(** How far rounding can take a bin edge from [360 * k / n], in degrees,
    and an angle from [2 * pi * k / n], in radians: [2^-34] and [2^-40]. *)
Definition edge_tolerance : Q := 1 # 17179869184.
Definition angle_tolerance : Q := 1 # 1099511627776.

(** The bin edges of [n] sectors are the multiples of [360 / n], for an
    [n] that divides 360. *)
Definition exact_edges (n : Z) : bool :=
  if 360 mod n =? 0 then
    match np_linspace 0 360 (n + 1) true with
    | Raise _ => false
    | Ok edges =>
        forallb (λ b : bool, b)
          (imap (λ k e, Qeq_bool e (inject_Z (360 / n * Z.of_nat k))) edges)
    end
  else true.

(** The rows of a two-column dataset. *)
Definition frame_of (ws wd : string) (speeds dirs : list cell) : DataFrame :=
  [(ws, NumCol speeds); (wd, NumCol dirs)].

(** The dataset of four rows used as the end-to-end example. *)
Definition frame4 : DataFrame :=
  frame_of "WS" "WD" [Num 1; Num 2; Num 3; Num 4]
                     [Num 0; Num 90; Num 180; Num 270].

(** * Properties *)

(** Goals about the columns of a frame given column by column. *)
Ltac columns_by_name :=
  repeat (rewrite ?filter_cons, ?filter_nil; simpl;
          repeat case_decide; simplify_eq/=);
  try done.

(** ** Running the monad *)

Lemma bind_run {A B} (m : M A) (k : A → M B) (σ : state) :
  (m ≫= k) σ = match m σ with
               | (Raise e, σ') => (Raise e, σ')
               | (Ok a, σ') => k a σ'
               end.
Proof. reflexivity. Qed.

Lemma read_frame_run (l : loc) (df : DataFrame) (σ : state) :
  heap σ !! l = Some df → read_frame l σ = (Ok df, σ).
Proof. intros H. unfold read_frame. by rewrite H. Qed.

Lemma fresh_loc_None (h : gmap loc DataFrame) : h !! fresh (dom h) = None.
Proof. apply not_elem_of_dom, is_fresh. Qed.

Lemma lift_bind_run {A B} (r : result A) (k : A → M B) (σ : state) :
  (lift r ≫= k) σ = match r with
                    | Raise e => (Raise e, σ)
                    | Ok a => k a σ
                    end.
Proof. rewrite bind_run. unfold lift. by destruct r. Qed.

Lemma read_bind_run {B} (l : loc) (df : DataFrame) (k : DataFrame → M B)
    (σ : state) :
  heap σ !! l = Some df → (read_frame l ≫= k) σ = k df σ.
Proof. intros H. by rewrite bind_run, (read_frame_run l df). Qed.

Lemma emit_bind_run {B} (e : event) (k : unit → M B) (σ : state) :
  (emit e ≫= k) σ = k tt (State (heap σ) (calls σ ++ [e])).
Proof. reflexivity. Qed.

Lemma result_bind_Ok {A B} (a : A) (k : A → result B) : Ok a ≫= k = k a.
Proof. reflexivity. Qed.

Lemma result_bind_Raise {A B} (e : exception) (k : A → result B) :
  Raise e ≫= k = Raise e.
Proof. reflexivity. Qed.

Lemma getitem_Some {A} (l : list A) (i : nat) (x : A) :
  l !! i = Some x → getitem l i = Ok x.
Proof. intros H. unfold getitem. by rewrite H. Qed.

(** ** The methods in terms of the frame they build *)

Lemma insert_fresh_subseteq (h : gmap loc DataFrame) (df : DataFrame) :
  h ⊆ <[fresh (dom h) := df]> h.
Proof. apply insert_subseteq, fresh_loc_None. Qed.

Lemma plot_radial_bar_run (self : WindAnalysis) (df : DataFrame)
    (ws wd : string) (n : Z) (σ : state) :
  heap σ !! data self = Some df →
  let r := sel ← df_getitem_list df [ws; wd];
           radial_chart (dropna sel) ws wd n in
  ∃ h' : gmap loc DataFrame,
    heap σ ⊆ h' ∧
    plot_radial_bar self ws wd n σ
      = (r ≫= λ _, Ok tt,
         State h' (calls σ ++ match r with Ok evs => evs | Raise _ => [] end)).
Proof.
  intros Hdf. destruct σ as [h cs]. simpl in Hdf.
  unfold plot_radial_bar, frame_getitem_list, frame_dropna, frame_getitem,
    frame_setitem, frame_groupby_mean, radial_chart.
  rewrite bind_run, (read_bind_run _ df), lift_bind_run by done.
  destruct (df_getitem_list df [ws; wd]) as [e|sel]; simpl.
  { exists h. by rewrite app_nil_r. }
  unfold new_frame at 1; simpl.
  set (l1 := fresh (dom h)). set (h1 := <[l1 := sel]> h).
  assert (h ⊆ h1) as Hh1 by apply insert_fresh_subseteq.
  rewrite bind_run, (read_bind_run _ sel) by apply lookup_insert_eq.
  unfold new_frame; simpl.
  set (l2 := fresh (dom h1)). set (h2 := <[l2 := dropna sel]> h1).
  assert (h ⊆ h2) as Hh2.
  { etrans; [exact Hh1|]. apply insert_fresh_subseteq. }
  rewrite lift_bind_run.
  destruct (np_linspace 0 360 (n + 1) true) as [e|bin_edges]; simpl.
  { exists h2. by rewrite app_nil_r. }
  rewrite bind_run, (read_bind_run _ (dropna sel)) by apply lookup_insert_eq.
  unfold lift at 1.
  destruct (df_getitem (dropna sel) wd) as [e|direction]; simpl.
  { exists h2. by rewrite app_nil_r. }
  rewrite lift_bind_run.
  destruct (sector_labels bin_edges n) as [e|labels]; simpl.
  { exists h2. by rewrite app_nil_r. }
  rewrite lift_bind_run.
  destruct (pd_cut direction bin_edges labels false) as [e|sector]; simpl.
  { exists h2. by rewrite app_nil_r. }
  rewrite bind_run, (read_bind_run _ (dropna sel)) by apply lookup_insert_eq.
  unfold write_frame; simpl.
  set (h3 := <[l2 := _]> h2).
  assert (h ⊆ h3) as Hh3.
  { unfold h3, h2. rewrite insert_insert_eq.
    etrans; [exact Hh1|]. apply insert_fresh_subseteq. }
  rewrite bind_run,
    (read_bind_run _ (df_setitem (dropna sel) "sector" sector))
    by apply lookup_insert_eq.
  unfold lift at 1.
  destruct (groupby_mean _ "sector" ws) as [e|sector_avg]; simpl.
  { exists h3. by rewrite app_nil_r. }
  rewrite lift_bind_run.
  destruct (np_linspace 0 (2 * np_pi) n false) as [e|angles]; simpl.
  { exists h3. by rewrite app_nil_r. }
  rewrite lift_bind_run.
  destruct (getitem angles 0) as [e|a0]; simpl.
  { exists h3. by rewrite app_nil_r. }
  rewrite lift_bind_run.
  destruct (getitem (series_values sector_avg) 0) as [e|v0]; simpl.
  { exists h3. by rewrite app_nil_r. }
  rewrite !emit_bind_run. simpl. exists h3. split; [done|].
  unfold emit; simpl. by rewrite <-!(assoc_L (++)).
Qed.

Lemma plot_wind_rose_run (cm : string → result colormap)
    (bar : column → column → bool → list Q → colormap → result unit)
    (self : WindAnalysis) (df : DataFrame) (ws wd : string)
    (bins : option (list Q)) (cmap : cmap_arg) (σ : state) :
  heap σ !! data self = Some df →
  let r := match df_getitem_list df [ws; wd] with
           | Raise e => (Raise e, [])
           | Ok sel => wind_rose_chart cm bar (dropna sel) ws wd bins cmap
           end in
  ∃ h' : gmap loc DataFrame,
    heap σ ⊆ h' ∧
    plot_wind_rose cm bar self ws wd bins cmap σ
      = (r.1, State h' (calls σ ++ r.2)).
Proof.
  intros Hdf. destruct σ as [h cs]. simpl in Hdf.
  unfold plot_wind_rose, frame_getitem_list, frame_dropna, frame_getitem,
    wind_rose_chart.
  rewrite bind_run, (read_bind_run _ df), lift_bind_run by done.
  destruct (df_getitem_list df [ws; wd]) as [e|sel]; simpl.
  { exists h. by rewrite app_nil_r. }
  unfold new_frame at 1; simpl.
  set (l1 := fresh (dom h)). set (h1 := <[l1 := sel]> h).
  assert (h ⊆ h1) as Hh1 by apply insert_fresh_subseteq.
  rewrite bind_run, (read_bind_run _ sel) by apply lookup_insert_eq.
  unfold new_frame; simpl.
  set (l2 := fresh (dom h1)). set (h2 := <[l2 := dropna sel]> h1).
  assert (h ⊆ h2) as Hh2.
  { etrans; [exact Hh1|]. apply insert_fresh_subseteq. }
  exists h2. split; [done|].
  rewrite lift_bind_run.
  destruct (match cmap with
            | CmapStr name => cm name
            | CmapObj c => Ok c
            end) as [e|c]; simpl.
  { by rewrite app_nil_r. }
  rewrite emit_bind_run. simpl.
  rewrite bind_run, (read_bind_run _ (dropna sel)) by apply lookup_insert_eq.
  unfold lift at 1.
  destruct (df_getitem (dropna sel) wd) as [e|direction]; simpl; [done|].
  rewrite bind_run, (read_bind_run _ (dropna sel)) by apply lookup_insert_eq.
  unfold lift at 1.
  destruct (df_getitem (dropna sel) ws) as [e|var]; simpl; [done|].
  rewrite emit_bind_run, lift_bind_run. simpl.
  destruct (bar direction var true _ c) as [e|[]]; simpl.
  { by rewrite <-!(assoc_L (++)). }
  rewrite !emit_bind_run. unfold emit; simpl.
  by rewrite <-!(assoc_L (++)).
Qed.

(** ** float64 arithmetic *)

Lemma strip2_spec (p d p' d' : positive) :
  strip2 p d = (p', d') → Z.pos p * Z.pos d' = Z.pos p' * Z.pos d.
Proof.
  revert d p' d'. induction p as [p IH|p IH|]; intros d p' d' H;
    destruct d as [d|d|]; simpl in H; try (injection H as <- <-; lia).
  apply IH in H. lia.
Qed.

Lemma rne_bounds (num den : Z) :
  0 <= num → 0 < den →
  0 <= rne num den ∧
  num - den <= rne num den * den ∧
  rne num den * den <= num + den.
Proof.
  intros Hnum Hden. unfold rne.
  pose proof (Z.div_eucl_eq num den) as Heq.
  pose proof (Z.mod_pos_bound num den Hden) as Hmod.
  pose proof (Z.div_pos num den Hnum Hden) as Hdiv.
  unfold Z.modulo, Z.div in *.
  destruct (Z.div_eucl num den) as [m r].
  specialize (Heq ltac:(lia)).
  repeat case_match; nia.
Qed.

Lemma dyadic_neg (m e : Z) :
  e < 0 → (dyadic m e == m # Z.to_pos (2 ^ (- e)))%Q.
Proof.
  intros He. unfold dyadic.
  destruct (Z.leb_spec 0 e) as [?|_]; [lia|].
  rewrite Z.shiftl_mul_pow2, Z.mul_1_l by lia.
  destruct m as [|p|p]; [done| |].
  - destruct (strip2 p (Z.to_pos (2 ^ (- e)))) as [p' d'] eqn:Hs.
    apply strip2_spec in Hs. unfold Qeq. simpl. lia.
  - destruct (strip2 p (Z.to_pos (2 ^ (- e)))) as [p' d'] eqn:Hs.
    apply strip2_spec in Hs. unfold Qeq. simpl. lia.
Qed.

Lemma ilog2_lt (p q : positive) (b : Z) :
  0 <= b → Z.pos p < 2 ^ b * Z.pos q → ilog2 (Z.pos p # q) < b.
Proof.
  intros Hb Hlt. unfold ilog2. cbn [Qnum Qden].
  assert (Z.log2 (Z.pos p) <= b + Z.log2 (Z.pos q)) as Hlog.
  { rewrite <-Z.log2_mul_pow2 by lia. apply Z.log2_le_mono. lia. }
  set (e0 := Z.log2 (Z.pos p) - Z.log2 (Z.pos q)) in *.
  destruct (Qle_bool 1 (scale2 (Z.pos p # q) (- e0))) eqn:Hle; [|lia].
  destruct (decide (e0 = b)) as [He|?]; [|lia].
  exfalso. rewrite He in Hle. unfold scale2 in Hle. cbn [Qnum Qden] in Hle.
  apply Qle_bool_iff in Hle.
  destruct (Z.leb_spec 0 (- b)) as [?|?].
  - assert (b = 0) as -> by lia. change (- 0) with 0 in Hle.
    rewrite Z.shiftl_0_r in Hle. unfold Qle in Hle. simpl in Hle. lia.
  - rewrite Z.opp_involutive, Z.shiftl_mul_pow2 in Hle by lia.
    assert (0 < 2 ^ b) by (apply Z.pow_pos_nonneg; lia).
    unfold Qle in Hle. cbn [Qnum Qden] in Hle.
    rewrite Z2Pos.id in Hle by nia. lia.
Qed.

(** Rounding a number of [[0, 2^b)] moves it by [2^(b-53)] at most. *)
Lemma round64_error (x : Q) (b : Z) :
  0 <= b <= 52 →
  (0 <= x)%Q → (x < inject_Z (2 ^ b))%Q →
  (0 <= round64 x)%Q ∧
  (x - (1 # Z.to_pos (2 ^ (53 - b))) <= round64 x)%Q ∧
  (round64 x <= x + (1 # Z.to_pos (2 ^ (53 - b))))%Q.
Proof.
  intros Hb H0 H1. destruct x as [a q]. unfold round64. cbn [Qnum].
  assert (0 < 2 ^ (53 - b)) as HU by (apply Z.pow_pos_nonneg; lia).
  destruct a as [|p|p].
  - unfold Qle, Qminus, Qplus. simpl. lia.
  - unfold round64_pos.
    set (e := ilog2 (Z.pos p # q)).
    assert (e < b) as He.
    { apply ilog2_lt; [lia|]. unfold Qlt in H1. simpl in H1. lia. }
    unfold scale2. cbn [Qnum Qden].
    destruct (Z.leb_spec 0 (52 - e)) as [_|?]; [|lia].
    rewrite Z.shiftl_mul_pow2 by lia.
    assert (2 ^ (53 - b) <= 2 ^ (52 - e)) as Hbig
      by (apply Z.pow_le_mono_r; lia).
    destruct (2 ^ (52 - e)) as [|t|t] eqn:Ht; [lia| |lia].
    change (Z.pos p * Z.pos t) with (Z.pos (p * t)). cbn [Qnum Qden].
    destruct (strip2 (p * t) q) as [num den] eqn:Hstrip.
    apply strip2_spec in Hstrip.
    destruct (rne_bounds (Z.pos num) (Z.pos den)) as (Hr0 & Hr1 & Hr2);
      [lia..|].
    rewrite dyadic_neg by lia.
    replace (- - (52 - e)) with (52 - e) by lia. rewrite Ht.
    change (Z.to_pos (Z.pos t)) with t.
    set (r := rne (Z.pos num) (Z.pos den)) in *.
    destruct (2 ^ (53 - b)) as [|u|u] eqn:Hu; [lia| |lia].
    change (Z.to_pos (Z.pos u)) with u.
    rewrite Pos2Z.inj_mul in Hstrip.
    assert (Z.pos p * Z.pos t - Z.pos q <= r * Z.pos q) as Hlo by nia.
    assert (r * Z.pos q <= Z.pos p * Z.pos t + Z.pos q) as Hhi by nia.
    split; [|split].
    + unfold Qle. cbn [Qnum Qden]. lia.
    + unfold Qle, Qminus, Qplus, Qopp. cbn [Qnum Qden].
      rewrite !Pos2Z.inj_mul. nia.
    + unfold Qle, Qplus. cbn [Qnum Qden].
      rewrite !Pos2Z.inj_mul. nia.
  - exfalso. unfold Qle in H0. simpl in H0. lia.
Qed.

(** ** numpy: [linspace] *)

Lemma linspace_length (start stop : Q) (num : Z) (endpoint : bool) :
  0 <= num →
  ∃ l, np_linspace start stop num endpoint = Ok l ∧ length l = Z.to_nat num.
Proof.
  intros Hn. unfold np_linspace.
  destruct (Z.ltb_spec num 0) as [?|_]; [lia|].
  eexists; split; [reflexivity|]. cbv zeta.
  repeat case_match; rewrite ?length_insert, !length_fmap, length_seqZ; done.
Qed.

Lemma linspace_values (stop : Q) (num : Z) (endpoint : bool) :
  0 <= num →
  let div := if endpoint then num - 1 else num in
  0 < div →
  Qeq_bool (fdiv (fsub stop 0) (inject_Z div)) 0 = false →
  np_linspace 0 stop num endpoint
  = Ok (let y := linspace_value stop div <$> seqZ 0 num in
        if endpoint && (1 <? num)
        then <[Nat.pred (length y) := stop]> y
        else y).
Proof.
  intros Hn div Hdiv Hstep. unfold np_linspace. fold div.
  destruct (Z.ltb_spec num 0) as [?|_]; [lia|].
  destruct (Z.ltb_spec 0 div) as [_|?]; [|lia].
  rewrite Hstep. cbv zeta. rewrite <-list_fmap_compose. reflexivity.
Qed.

(** The values of [np.linspace(0, stop, ...)] with at most 720 steps, for
    [1 <= stop <= 2^b - 1]: value [k] is within [722 * 2^(b-53)] of
    [stop * k / div]. *)
Lemma linspace_value_close (stop : Q) (b div k : Z) :
  0 <= b <= 43 →
  (fsub stop 0 == stop)%Q →
  (1 <= stop)%Q → (stop + 1 <= inject_Z (2 ^ b))%Q →
  0 < div <= 720 → 0 <= k <= div →
  let u := (1 # Z.to_pos (2 ^ (53 - b)))%Q in
  let v := linspace_value stop div k in
  Qeq_bool (fdiv (fsub stop 0) (inject_Z div)) 0 = false ∧
  (0 <= v)%Q ∧
  (stop * inject_Z k / inject_Z div - 722 * u <= v)%Q ∧
  (v <= stop * inject_Z k / inject_Z div + 722 * u)%Q.
Proof.
  intros Hb Hdelta Hstop1 HstopB [Hdiv0 Hdiv] [Hk0 Hk] u v.
  assert (0 < u)%Q as Hu0 by done.
  assert (u <= 1 # 1024)%Q as Hu.
  { unfold u, Qle. cbn [Qnum Qden].
    assert (2 ^ 10 <= 2 ^ (53 - b)) by (apply Z.pow_le_mono_r; lia).
    rewrite Z2Pos.id by lia. lia. }
  assert (1 <= inject_Z div)%Q as HD1
    by (change 1%Q with (inject_Z 1); rewrite <-Zle_Qle; lia).
  assert (inject_Z div <= 720)%Q as HD720
    by (change 720%Q with (inject_Z 720); rewrite <-Zle_Qle; lia).
  assert (0 <= inject_Z k)%Q as HK0
    by (change 0%Q with (inject_Z 0); rewrite <-Zle_Qle; lia).
  assert (inject_Z k <= inject_Z div)%Q as HKD by (rewrite <-Zle_Qle; lia).
  set (B := inject_Z (2 ^ b)) in *.
  set (D := inject_Z div) in *. set (K := inject_Z k) in *.
  unfold v, linspace_value, fadd, fmul, fdiv. fold D K.
  set (x0 := (fsub stop 0 / D)%Q).
  assert (x0 * D == stop)%Q as Hx0.
  { unfold x0. rewrite Hdelta. field. lra. }
  assert (stop * K / D == K * x0)%Q as ->.
  { unfold x0. rewrite Hdelta. field. lra. }
  assert (0 <= x0)%Q as Hx00 by nra.
  assert (x0 <= stop)%Q as Hx0s by nra.
  assert (1 <= 720 * x0)%Q as Hx0l by nra.
  destruct (round64_error x0 b) as (Hs0 & Hs1 & Hs2); [lia|lra|fold B; lra|].
  fold u in Hs1, Hs2. set (step := round64 x0) in *.
  split.
  { destruct (Qeq_bool step 0) eqn:Heq; [|done].
    apply Qeq_bool_iff in Heq. lra. }
  assert (K * x0 <= stop)%Q as HKx0 by nra.
  assert (K * x0 - 720 * u <= K * step)%Q as Hx1l by nra.
  assert (K * step <= K * x0 + 720 * u)%Q as Hx1h by nra.
  assert (0 <= K * step)%Q as Hx10 by nra.
  destruct (round64_error (K * step) b) as (Hv0 & Hv1 & Hv2); [lia|lra|fold B; lra|].
  fold u in Hv1, Hv2. set (v1 := round64 (K * step)) in *.
  destruct (round64_error (v1 + 0) b) as (He0 & He1 & He2); [lia|lra|fold B; lra|].
  fold u in He1, He2.
  split; [done|]. split; lra.
Qed.

(** ** The bin edges *)

Lemma inject_Z_pos_neq_0 (n : Z) : 0 < n → ¬ (inject_Z n == 0)%Q.
Proof.
  intros Hn H. unfold Qeq in H. simpl in H. lia.
Qed.

Lemma edge_at_lookup (edges : list Q) (k : nat) (x : Q) :
  edges !! k = Some x → edge_at edges k = x.
Proof. intros H. unfold edge_at. by rewrite H. Qed.

Lemma lookup_edge_at (edges : list Q) (k : nat) :
  (k < length edges)%nat → edges !! k = Some (edge_at edges k).
Proof.
  intros Hk. unfold edge_at.
  destruct (edges !! k) eqn:H; [done|]. apply lookup_ge_None in H. lia.
Qed.

Lemma edge_0 (n : Z) : (edge n 0 == 0)%Q.
Proof. unfold edge. simpl. unfold Qdiv. ring. Qed.

Lemma edge_n (n : Z) : 0 < n → (edge n (Z.to_nat n) == 360)%Q.
Proof.
  intros Hn. unfold edge. rewrite Z2Nat.id by lia. field.
  by apply inject_Z_pos_neq_0.
Qed.

Lemma edge_diff (n : Z) (i j : nat) :
  0 < n →
  (edge n j - edge n i
   == (inject_Z (Z.of_nat j) - inject_Z (Z.of_nat i)) * (360 / inject_Z n))%Q.
Proof. intros Hn. unfold edge. field. by apply inject_Z_pos_neq_0. Qed.

Lemma edge_gap (n : Z) (i j : nat) :
  0 < n <= 720 → (i < j)%nat → (edge n i + (1 # 2) <= edge n j)%Q.
Proof.
  intros [Hn Hle] Hij. pose proof (edge_diff n i j Hn) as Hd.
  assert (1 # 2 <= 360 / inject_Z n)%Q as Hw.
  { apply Qle_shift_div_l.
    - change 0%Q with (inject_Z 0). rewrite <-Zlt_Qlt. lia.
    - unfold Qle. simpl. lia. }
  assert (1 <= inject_Z (Z.of_nat j) - inject_Z (Z.of_nat i))%Q as Hji.
  { unfold Qle, Qminus, Qplus. simpl. lia. }
  set (w := (360 / inject_Z n)%Q) in *.
  set (J := inject_Z (Z.of_nat j)) in *. set (I := inject_Z (Z.of_nat i)) in *.
  nra.
Qed.

Lemma edge_gap2 (n : Z) (k : nat) :
  0 < n <= 719 → (edge n k + 1 + (1 # 719) <= edge n (S (S k)))%Q.
Proof.
  intros [Hn Hle]. pose proof (edge_diff n k (S (S k)) Hn) as Hd.
  assert (inject_Z (Z.of_nat (S (S k))) - inject_Z (Z.of_nat k) == 2)%Q as Hji.
  { unfold Qeq, Qminus, Qplus. simpl. lia. }
  rewrite Hji in Hd.
  assert (360 # 719 <= 360 / inject_Z n)%Q as Hw.
  { apply Qle_shift_div_l.
    - change 0%Q with (inject_Z 0). rewrite <-Zlt_Qlt. lia.
    - unfold Qle. simpl. lia. }
  lra.
Qed.

Lemma fsub_360 : (fsub 360 0 == 360)%Q.
Proof. by vm_compute. Qed.

Lemma edge_value_close (n k : Z) :
  0 < n <= 720 → 0 <= k <= n →
  Qeq_bool (fdiv (fsub 360 0) (inject_Z n)) 0 = false ∧
  (0 <= linspace_value 360 n k)%Q ∧
  (Qabs (linspace_value 360 n k - edge n (Z.to_nat k)) <= edge_tolerance)%Q.
Proof.
  intros Hn Hk.
  destruct (linspace_value_close 360 9 n k) as (Hstep & H0 & Hlo & Hhi);
    [lia|apply fsub_360|done|done|lia..|].
  change (Z.to_pos (2 ^ (53 - 9))) with 17592186044416%positive in *.
  split; [done|]. split; [done|].
  unfold edge, edge_tolerance. rewrite Z2Nat.id by lia.
  apply Qabs_Qle_condition. split; lra.
Qed.

Lemma linspace_edges_values (n : Z) :
  0 < n <= 720 →
  ∃ edges : list Q,
    np_linspace 0 360 (n + 1) true = Ok edges ∧
    length edges = S (Z.to_nat n) ∧
    edge_at edges 0 = 0%Q ∧
    edge_at edges (Z.to_nat n) = 360%Q ∧
    ∀ k, (k ≤ Z.to_nat n)%nat →
         (0 <= edge_at edges k)%Q ∧
         (Qabs (edge_at edges k - edge n k) <= edge_tolerance)%Q.
Proof.
  intros Hn.
  pose proof (linspace_values 360 (n + 1) true) as Hlin. cbv zeta in Hlin.
  cbn [andb] in Hlin. replace (n + 1 - 1) with n in Hlin by lia.
  destruct (Z.ltb_spec 1 (n + 1)) as [_|?]; [|lia].
  rewrite Hlin; [|lia|lia|by apply (edge_value_close n 0); lia].
  clear Hlin.
  set (y := linspace_value 360 n <$> seqZ 0 (n + 1)).
  assert (length y = S (Z.to_nat n)) as Hlen.
  { unfold y. rewrite length_fmap, length_seqZ. lia. }
  assert (∀ k, (k < Z.to_nat n)%nat →
               edge_at (<[Nat.pred (length y) := 360%Q]> y) k
               = linspace_value 360 n (Z.of_nat k)) as Hk.
  { intros k Hk. apply edge_at_lookup.
    rewrite list_lookup_insert_ne by (rewrite Hlen; simpl; lia).
    unfold y. rewrite list_lookup_fmap, lookup_seqZ_lt by lia. done. }
  assert (edge_at (<[Nat.pred (length y) := 360%Q]> y) (Z.to_nat n) = 360%Q)
    as Hlast.
  { apply edge_at_lookup. rewrite Hlen. simpl.
    apply list_lookup_insert_eq. lia. }
  eexists. split; [reflexivity|].
  split; [by rewrite length_insert|].
  split; [rewrite Hk by lia; reflexivity|].
  split; [done|].
  intros k Hkn. destruct (decide (k = Z.to_nat n)) as [->|Hne].
  - rewrite Hlast. split; [done|].
    apply Qabs_Qle_condition. rewrite edge_n by lia.
    unfold edge_tolerance. split; lra.
  - rewrite Hk by lia.
    destruct (edge_value_close n (Z.of_nat k)) as (_ & H0 & Hclose);
      [lia..|].
    by rewrite Nat2Z.id in Hclose.
Qed.

Lemma close_increasing (n : Z) (edges : list Q) :
  0 < n <= 720 → length edges = S (Z.to_nat n) →
  (∀ k, (k ≤ Z.to_nat n)%nat →
        (Qabs (edge_at edges k - edge n k) <= edge_tolerance)%Q) →
  increasing edges.
Proof.
  intros Hn Hlen Hclose i j x y Hi Hj Hij.
  pose proof (lookup_lt_Some _ _ _ Hj) as Hjn.
  pose proof (Hclose i ltac:(lia)) as Hci.
  pose proof (Hclose j ltac:(lia)) as Hcj.
  rewrite (edge_at_lookup _ _ _ Hi) in Hci.
  rewrite (edge_at_lookup _ _ _ Hj) in Hcj.
  apply Qabs_Qle_condition in Hci, Hcj.
  pose proof (edge_gap n i j Hn Hij). unfold edge_tolerance in *. lra.
Qed.

Lemma Qfloor_step (x z : Q) : (x + 1 <= z)%Q → Qfloor x < Qfloor z.
Proof.
  intros H.
  assert (Qfloor x + 1 <= Qfloor z); [|lia].
  rewrite <-(Qfloor_Z (Qfloor x + 1)). apply Qfloor_resp_le.
  rewrite inject_Z_plus. pose proof (Qfloor_le x).
  change (inject_Z 1) with 1%Q. lra.
Qed.

Lemma int_of_float_floor (q : Q) : (0 <= q)%Q → int_of_float q = Qfloor q.
Proof.
  destruct q as [a b]. unfold Qle, int_of_float, Qfloor. simpl.
  intros H. apply Z.quot_div_nonneg; lia.
Qed.

Lemma close_spread (n : Z) (edges : list Q) :
  0 < n <= 719 → length edges = S (Z.to_nat n) →
  (∀ k, (k ≤ Z.to_nat n)%nat →
        (0 <= edge_at edges k)%Q ∧
        (Qabs (edge_at edges k - edge n k) <= edge_tolerance)%Q) →
  spread edges.
Proof.
  intros Hn Hlen Hclose k x z Hx Hz.
  pose proof (lookup_lt_Some _ _ _ Hz) as Hkn.
  destruct (Hclose k ltac:(lia)) as [Hx0 Hcx].
  destruct (Hclose (S (S k)) ltac:(lia)) as [Hz0 Hcz].
  rewrite (edge_at_lookup _ _ _ Hx) in Hx0, Hcx.
  rewrite (edge_at_lookup _ _ _ Hz) in Hz0, Hcz.
  apply Qabs_Qle_condition in Hcx, Hcz.
  pose proof (edge_gap2 n k Hn).
  rewrite !int_of_float_floor by done.
  apply Qfloor_step. unfold edge_tolerance in *. lra.
Qed.

Lemma floors_spread_spec (a : list Q) : floors_spread a = true → spread a.
Proof.
  induction a as [|x a IH]; intros H k x' z' Hx Hz; [done|].
  destruct a as [|y [|z a]]; [done..|].
  change ((int_of_float x <? int_of_float z) && floors_spread (y :: z :: a)
          = true) in H.
  apply andb_true_iff in H as [H1 H2].
  destruct k as [|k].
  - simpl in Hx, Hz. simplify_eq. by apply Z.ltb_lt.
  - by apply (IH H2 k).
Qed.

Lemma edges_720_spread :
  match np_linspace 0 360 (720 + 1) true with
  | Ok edges => floors_spread edges
  | Raise _ => false
  end = true.
Proof. by vm_compute. Qed.

(** The bin edges of a call with 1 to 720 sectors. *)
Lemma linspace_edges (n : Z) :
  0 < n <= 720 →
  ∃ edges : list Q,
    np_linspace 0 360 (n + 1) true = Ok edges ∧
    length edges = S (Z.to_nat n) ∧
    edge_at edges 0 = 0%Q ∧
    edge_at edges (Z.to_nat n) = 360%Q ∧
    (∀ k, (k ≤ Z.to_nat n)%nat →
          (0 <= edge_at edges k)%Q ∧
          (Qabs (edge_at edges k - edge n k) <= edge_tolerance)%Q) ∧
    increasing edges ∧
    spread edges.
Proof.
  intros Hn.
  destruct (linspace_edges_values n Hn)
    as (edges & Hlin & Hlen & He0 & Hen & Hclose).
  exists edges. repeat split; try done; try (by apply Hclose).
  - apply (close_increasing n); [done..|]. intros k Hk. by apply Hclose.
  - destruct (decide (n = 720)) as [->|?].
    + pose proof edges_720_spread as H. rewrite Hlin in H.
      by apply floors_spread_spec.
    + apply (close_spread n); [lia|done..].
Qed.

Lemma divisors_exact : forallb exact_edges (seqZ 1 360) = true.
Proof. by vm_compute. Qed.

Lemma edges_exact (n w : Z) (edges : list Q) (k : nat) :
  0 < n → 360 = w * n → np_linspace 0 360 (n + 1) true = Ok edges →
  (k < length edges)%nat →
  (edge_at edges k == inject_Z (w * Z.of_nat k))%Q.
Proof.
  intros Hn Hw Hlin Hk.
  assert (0 < w) as Hwpos.
  { destruct (Z.lt_trichotomy w 0) as [?|[->|?]]; [|lia|done].
    assert (w * n < 0) by (apply Z.mul_neg_pos; lia). lia. }
  assert (n ∈ seqZ 1 360) as Hin by (apply elem_of_seqZ; nia).
  pose proof divisors_exact as Hall.
  rewrite forallb_forall in Hall.
  apply list_elem_of_In, Hall in Hin. unfold exact_edges in Hin.
  rewrite Hw, Z.mod_mul, Z.div_mul in Hin by lia. simpl in Hin.
  rewrite <-Hw, Hlin in Hin.
  rewrite forallb_forall in Hin.
  apply Qeq_bool_iff, Hin, list_elem_of_In, list_elem_of_lookup.
  exists k. rewrite list_lookup_imap, (lookup_edge_at edges k) by done. done.
Qed.

Lemma edge_exact_divisor (n : Z) (edges : list Q) (k : nat) :
  0 < n → 360 mod n = 0 → np_linspace 0 360 (n + 1) true = Ok edges →
  (k < length edges)%nat → (edge_at edges k == edge n k)%Q.
Proof.
  intros Hn Hmod Hlin Hk.
  assert (360 = 360 `div` n * n) as Hw.
  { rewrite Z.mul_comm. apply Z.div_exact; lia. }
  rewrite (edges_exact n (360 `div` n) edges k) by done.
  assert (360 == inject_Z (360 `div` n) * inject_Z n)%Q as H360.
  { rewrite <-inject_Z_mult, <-Hw. reflexivity. }
  unfold edge. rewrite inject_Z_mult, H360. field.
  by apply inject_Z_pos_neq_0.
Qed.

(** ** Sector labels *)

Lemma mapM_result_Ok {A B} (f : A → result B) (g : A → B) (l : list A) :
  (∀ x, x ∈ l → f x = Ok (g x)) → mapM f l = Ok (g <$> l).
Proof.
  induction l as [|x l IH]; intros Hf; [done|]. simpl.
  rewrite (Hf x) by left. simpl.
  rewrite IH by (intros y Hy; apply Hf; by right). done.
Qed.

Lemma sector_labels_edges (n : Z) (edges : list Q) :
  length edges = S (Z.to_nat n) →
  sector_labels edges n = Ok (bin_label edges <$> seq 0 (Z.to_nat n)).
Proof.
  intros Hlen. unfold sector_labels.
  rewrite (mapM_result_Ok _ (λ i, bin_label edges (Z.to_nat i))).
  - f_equal. unfold seqZ. rewrite <-list_fmap_compose.
    apply list_fmap_ext. intros i k _. simpl. f_equal. lia.
  - intros i Hi. apply elem_of_seqZ in Hi.
    rewrite (getitem_Some _ _ _ (lookup_edge_at edges (Z.to_nat i) ltac:(lia))).
    rewrite result_bind_Ok.
    rewrite (getitem_Some _ _ _
               (lookup_edge_at edges (Z.to_nat (i + 1)) ltac:(lia))).
    rewrite result_bind_Ok. unfold bin_label.
    by replace (S (Z.to_nat i)) with (Z.to_nat (i + 1)) by lia.
Qed.

Lemma pretty_N_go_no_dash (x : N) (s : string) :
  no_dash s → no_dash (pretty_N_go x s).
Proof.
  revert s. induction (N.lt_wf_0 x) as [x _ IH]; intros s Hs.
  destruct (decide (x = 0%N)) as [->|Hx].
  - by rewrite pretty_N_go_0.
  - rewrite pretty_N_go_step by lia. apply IH.
    + apply N.div_lt; lia.
    + split; [|done]. unfold pretty_N_char. by repeat case_match.
Qed.

Lemma pretty_Z_no_dash (z : Z) : 0 <= z → no_dash (pretty z).
Proof.
  intros Hz. destruct z as [|p|p]; [by repeat split| |lia].
  unfold pretty, pretty_Z, pretty, pretty_positive, pretty, pretty_N.
  case_decide; [done|]. by apply pretty_N_go_no_dash.
Qed.

Lemma append_cons (c : ascii) (s t : string) :
  String c s +:+ t = String c (s +:+ t).
Proof. reflexivity. Qed.

Lemma append_empty (t : string) : "" +:+ t = t.
Proof. reflexivity. Qed.

Lemma dash_split_inj (s1 s2 t1 t2 : string) :
  no_dash s1 → no_dash s2 →
  s1 +:+ "-" +:+ t1 = s2 +:+ "-" +:+ t2 → s1 = s2 ∧ t1 = t2.
Proof.
  revert s2. induction s1 as [|c s1 IH]; intros [|c' s2];
    rewrite ?append_cons, ?append_empty; simpl.
  - intros _ _ [= ->]. done.
  - intros _ [Hc _] [= <- _]. done.
  - intros [Hc _] _ [= -> _]. done.
  - intros [_ H1] [_ H2] [= -> Heq].
    destruct (IH s2 H1 H2 Heq) as [-> ->]. done.
Qed.

Lemma int_of_float_nonneg (q : Q) : (0 <= q)%Q → 0 <= int_of_float q.
Proof.
  intros H. rewrite int_of_float_floor by done.
  rewrite <-(Qfloor_Z 0). by apply Qfloor_resp_le.
Qed.

Lemma int_of_float_le (x y : Q) :
  (0 <= x)%Q → (x <= y)%Q → int_of_float x <= int_of_float y.
Proof.
  intros Hx Hxy. rewrite !int_of_float_floor by lra.
  by apply Qfloor_resp_le.
Qed.

Lemma increasing_edge_at_le (edges : list Q) (i j : nat) :
  increasing edges → (i ≤ j)%nat → (j < length edges)%nat →
  (edge_at edges i <= edge_at edges j)%Q.
Proof.
  intros Hinc Hij Hj. destruct (decide (i = j)) as [->|?]; [lra|].
  apply Qlt_le_weak, (Hinc i j); [by apply lookup_edge_at; lia..|lia].
Qed.

Lemma bin_label_inj (edges : list Q) (i j : nat) :
  (0 <= edge_at edges i)%Q → (0 <= edge_at edges j)%Q →
  bin_label edges i = bin_label edges j →
  int_of_float (edge_at edges i) = int_of_float (edge_at edges j) ∧
  int_of_float (edge_at edges (S i)) = int_of_float (edge_at edges (S j)).
Proof.
  intros Hi Hj Heq. unfold bin_label, sector_label in Heq.
  apply dash_split_inj in Heq as [H1 H2];
    [|by apply pretty_Z_no_dash, int_of_float_nonneg..].
  split; by apply (inj pretty).
Qed.

Lemma bin_label_NoDup (n : Z) (edges : list Q) :
  length edges = S (Z.to_nat n) →
  (0 <= edge_at edges 0)%Q → increasing edges → spread edges →
  NoDup (bin_label edges <$> seq 0 (Z.to_nat n)).
Proof.
  intros Hlen H0 Hinc Hspread.
  assert (∀ k, (k < length edges)%nat → (0 <= edge_at edges k)%Q) as Hpos.
  { intros k Hk. eapply Qle_trans; [exact H0|].
    apply increasing_edge_at_le; [done|lia|done]. }
  apply NoDup_fmap_2_strong; [|apply NoDup_seq].
  assert (∀ i j, (i < j)%nat → (j < Z.to_nat n)%nat →
                 bin_label edges i ≠ bin_label edges j) as Hlt.
  { intros i j Hij Hj Heq.
    apply bin_label_inj in Heq as [H1 H2]; [|apply Hpos; lia..].
    assert (int_of_float (edge_at edges i)
            < int_of_float (edge_at edges (S (S i)))) as Hs
      by (apply (Hspread i); apply lookup_edge_at; lia).
    assert (int_of_float (edge_at edges (S (S i)))
            <= int_of_float (edge_at edges (S j))) as Ha.
    { apply int_of_float_le; [apply Hpos; lia|].
      apply increasing_edge_at_le; [done|lia..]. }
    assert (int_of_float (edge_at edges (S i))
            <= int_of_float (edge_at edges j)) as Hb.
    { apply int_of_float_le; [apply Hpos; lia|].
      apply increasing_edge_at_le; [done|lia..]. }
    lia. }
  intros i j Hi Hj Heq.
  apply elem_of_seq in Hi, Hj.
  destruct (Nat.lt_trichotomy i j) as [?|[?|?]]; [|done|].
  - destruct (Hlt i j); [lia..|done].
  - destruct (Hlt j i); [lia..|done].
Qed.

(** ** pandas: [cut] *)

Lemma increasing_tail (x : Q) (a : list Q) : increasing (x :: a) → increasing a.
Proof. intros H i j y z Hi Hj Hij. apply (H (S i) (S j)); [done..|lia]. Qed.

Lemma increasing_monotonic (a : list Q) :
  increasing a → is_monotonic_increasing a = true.
Proof.
  induction a as [|x [|y a] IH]; intros Ha; [done..|].
  change (Qle_bool x y && is_monotonic_increasing (y :: a) = true).
  rewrite IH by (by eapply increasing_tail). rewrite andb_true_r.
  apply Qle_bool_iff, Qlt_le_weak, (Ha 0%nat 1%nat); [done..|lia].
Qed.

Lemma increasing_unique (a : list Q) : increasing a → is_unique a = true.
Proof.
  induction a as [|x a IH]; intros Ha; [done|]. simpl.
  rewrite IH by (by eapply increasing_tail). rewrite andb_true_r.
  apply forallb_forall. intros y Hy. apply negb_true_iff.
  destruct (Qeq_bool x y) eqn:Heq; [|done].
  apply Qeq_bool_iff in Heq.
  apply list_elem_of_In, list_elem_of_lookup in Hy as [j Hj].
  assert (x < y)%Q as Hlt by (apply (Ha 0%nat (S j)); [done..|lia]).
  rewrite Heq in Hlt. by apply Qlt_irrefl in Hlt.
Qed.

Lemma searchsorted_right_lt (a : list Q) (v : Q) (j : nat) (x : Q) :
  increasing a → a !! j = Some x →
  (j < searchsorted_right a v)%nat ↔ (x <= v)%Q.
Proof.
  revert j. induction a as [|b a IH]; intros j Ha Hj; [done|]. simpl.
  destruct (Qle_bool b v) eqn:Hb.
  - apply Qle_bool_iff in Hb. destruct j as [|j]; simpl in Hj.
    + injection Hj as ->. split; [done|lia].
    + rewrite <-(IH j) by (by eapply increasing_tail || done). lia.
  - split; [lia|]. intros Hx.
    assert (b <= v)%Q as Hbv; [|apply Qle_bool_iff in Hbv; congruence].
    destruct j as [|j]; simpl in Hj; [by injection Hj as ->|].
    apply Qlt_le_weak, Qlt_le_trans with x; [|done].
    apply (Ha 0%nat (S j)); [done..|lia].
Qed.

Lemma searchsorted_right_all (a : list Q) (v : Q) :
  (∀ x, x ∈ a → (x <= v)%Q) → searchsorted_right a v = length a.
Proof.
  induction a as [|b a IH]; intros Ha; [done|]. simpl.
  assert (Qle_bool b v = true) as -> by (apply Qle_bool_iff, Ha; left).
  rewrite IH; [done|]. intros x Hx. apply Ha. by right.
Qed.

Lemma cut_code_sector (a : list Q) (k : nat) (d : Q) :
  increasing a → (S k < length a)%nat →
  code_is k (cut_code a false (Num d)) = in_binb a k d.
Proof.
  intros Ha Hk.
  pose proof (lookup_edge_at a k ltac:(lia)) as Hlo.
  pose proof (lookup_edge_at a (S k) Hk) as Hhi.
  pose proof (searchsorted_right_lt a d k _ Ha Hlo) as H1.
  pose proof (searchsorted_right_lt a d (S k) _ Ha Hhi) as H2.
  rewrite <-!Qle_bool_iff in H1, H2.
  unfold cut_code, in_binb. set (id := searchsorted_right a d) in *.
  destruct (Qle_bool (edge_at a k) d), (Qle_bool (edge_at a (S k)) d); simpl;
    repeat (case_match; simpl); rewrite ?Nat.eqb_eq, ?Nat.eqb_neq in *;
    try done; try lia;
    repeat match goal with
           | H : _ || _ = _ |- _ =>
               first [apply orb_true_iff in H | apply orb_false_iff in H];
               rewrite ?Nat.eqb_eq, ?Nat.eqb_neq in H
           end; try lia.
Qed.

Lemma pd_cut_edges (n : Z) (edges : list Q) (xs : list cell) :
  length edges = S (Z.to_nat n) → 0 <= n →
  (0 <= edge_at edges 0)%Q → increasing edges → spread edges →
  pd_cut (NumCol xs) edges (bin_label edges <$> seq 0 (Z.to_nat n)) false
  = Ok (CatCol (bin_label edges <$> seq 0 (Z.to_nat n))
               (cut_code edges false <$> xs)).
Proof.
  intros Hlen Hn H0 Hinc Hspread. unfold pd_cut.
  rewrite increasing_monotonic, increasing_unique by done. simpl.
  rewrite bool_decide_eq_true_2 by (by apply bin_label_NoDup). simpl.
  rewrite length_fmap, length_seq, Hlen.
  destruct (Z.eqb_spec (Z.of_nat (Z.to_nat n)) (Z.of_nat (S (Z.to_nat n)) - 1));
    [done|lia].
Qed.

(** ** Selecting the two columns and dropping the missing rows *)

Lemma df_getitem_columns_named (df : DataFrame) (name : string) (c : column) :
  df_getitem df name = Ok c → columns_named name df = [(name, c)].
Proof.
  unfold df_getitem. intros H.
  destruct (columns_named name df) as [|[n0 c0] [|? ?]] eqn:Hcols;
    [done| |done].
  injection H as ->.
  assert ((n0, c) ∈ columns_named name df) as Hin by (rewrite Hcols; left).
  apply list_elem_of_filter in Hin as [Hn _]. simpl in Hn. by subst.
Qed.

Lemma df_getitem_list_wind (df : DataFrame) (ws wd : string)
    (speeds dirs : list cell) :
  wind_columns df ws wd speeds dirs →
  df_getitem_list df [ws; wd] = Ok (frame_of ws wd speeds dirs).
Proof.
  intros (Hs & Hd & _). unfold df_getitem_list. simpl.
  by rewrite (df_getitem_columns_named _ _ _ Hs),
    (df_getitem_columns_named _ _ _ Hd).
Qed.

Lemma compress_observations (speeds dirs : list cell) (r : nat) :
  (length speeds ≤ r)%nat →
  let mask := zip_with andb (notna <$> speeds)
                (zip_with andb (notna <$> dirs) (replicate r true)) in
  compress mask speeds = (λ o, Num o.1) <$> observations speeds dirs ∧
  compress mask dirs = (λ o, Num o.2) <$> observations speeds dirs.
Proof.
  revert dirs r. induction speeds as [|s speeds IH]; intros dirs r Hr; simpl.
  { done. }
  destruct dirs as [|d dirs]; simpl.
  { by destruct s. }
  destruct r as [|r]; simpl in *; [lia|].
  destruct (IH dirs r) as [IH1 IH2]; [lia|].
  destruct s, d; simpl; split;
    first [exact IH1 | exact IH2 | f_equal; first [exact IH1 | exact IH2]].
Qed.

Lemma dropna_frame_of (ws wd : string) (speeds dirs : list cell) :
  dropna (frame_of ws wd speeds dirs)
  = frame_of ws wd ((λ o, Num o.1) <$> observations speeds dirs)
                   ((λ o, Num o.2) <$> observations speeds dirs).
Proof.
  unfold dropna, frame_of, row_mask. simpl.
  destruct (compress_observations speeds dirs (length speeds)) as [H1 H2];
    [done|].
  simpl in H1, H2. by rewrite H1, H2.
Qed.

Lemma df_getitem_frame_of (ws wd : string) (speeds dirs : list cell) :
  ws ≠ wd →
  df_getitem (frame_of ws wd speeds dirs) ws = Ok (NumCol speeds) ∧
  df_getitem (frame_of ws wd speeds dirs) wd = Ok (NumCol dirs).
Proof.
  intros Hne. unfold df_getitem, columns_named, frame_of.
  split; columns_by_name.
Qed.

(** ** The means of the binned observations *)

Lemma group_cut_observations (edges : list Q) (k : nat)
    (obs : list (Q * Q)) :
  increasing edges → (S k < length edges)%nat →
  group (code_is k)
        (cut_code edges false <$> ((λ o, Num o.2) <$> obs))
        ((λ o, Num o.1) <$> obs)
  = Num <$> bin_speeds edges k obs.
Proof.
  intros Hinc Hk. unfold bin_speeds.
  induction obs as [|[s d] obs IH]; [done|].
  rewrite filter_cons. rewrite !fmap_cons.
  cbn [group snd fst].
  rewrite (cut_code_sector edges k d) by done.
  destruct (in_binb edges k d); simpl.
  - f_equal. exact IH.
  - exact IH.
Qed.

Lemma groupby_mean_sector (ws wd : string) (speeds dirs : list cell)
    (cats : list string) (codes : list (option nat)) :
  ws ≠ wd → ws ≠ "sector" →
  groupby_mean
    (df_setitem (frame_of ws wd speeds dirs) "sector" (CatCol cats codes))
    "sector" ws
  = Ok (imap (λ k lab, (LStr lab, mean (group (code_is k) codes speeds)))
             cats).
Proof.
  intros Hne Hws.
  unfold groupby_mean, df_getitem, df_setitem, columns_named, frame_of.
  columns_by_name.
Qed.

(** ** The radial chart of a well-formed call *)

Lemma radial_chart_spec (ws wd : string) (n : Z) (obs : list (Q * Q)) :
  ws ≠ wd → ws ≠ "sector" → 0 < n <= 720 →
  ∃ (edges angles : list Q) (a0 : Q),
    np_linspace 0 360 (n + 1) true = Ok edges ∧
    np_linspace 0 (2 * np_pi) n false = Ok angles ∧
    length angles = Z.to_nat n ∧
    angles !! 0%nat = Some a0 ∧
    radial_chart
      (frame_of ws wd ((λ o, Num o.1) <$> obs) ((λ o, Num o.2) <$> obs))
      ws wd n
    = Ok (radial_calls edges n obs angles a0).
Proof.
  intros Hne Hws Hn.
  destruct (linspace_edges n Hn)
    as (edges & Hlin & Hlen & He0 & Hen & Hclose & Hinc & Hspread).
  destruct (linspace_length 0 (2 * np_pi) n false)
    as (angles & Hang & Hanglen); [lia|].
  destruct (angles !! 0%nat) as [a0|] eqn:Ha0.
  2: { apply lookup_ge_None in Ha0. lia. }
  exists edges, angles, a0. repeat split; [done..|].
  unfold radial_chart. rewrite Hlin, result_bind_Ok.
  destruct (df_getitem_frame_of ws wd ((λ o, Num o.1) <$> obs)
              ((λ o, Num o.2) <$> obs) Hne) as [_ ->].
  rewrite result_bind_Ok.
  rewrite (sector_labels_edges n edges), result_bind_Ok by done.
  rewrite (pd_cut_edges n edges), result_bind_Ok
    by (try done; try lia; rewrite He0; done).
  rewrite groupby_mean_sector, result_bind_Ok by done.
  rewrite Hang, result_bind_Ok.
  rewrite (getitem_Some angles 0 a0), result_bind_Ok by done.
  assert (imap (λ k lab, (LStr lab,
            mean (group (code_is k)
                    (cut_code edges false <$> ((λ o, Num o.2) <$> obs))
                    ((λ o, Num o.1) <$> obs))))
            (bin_label edges <$> seq 0 (Z.to_nat n))
          = (λ k, (LStr (bin_label edges k), bin_mean edges k obs))
              <$> seq 0 (Z.to_nat n)) as ->.
  { apply list_eq. intros k.
    rewrite list_lookup_imap, !list_lookup_fmap.
    destruct (seq 0 (Z.to_nat n) !! k) as [k'|] eqn:Hk; [|done].
    apply lookup_seq in Hk as [-> Hk]. simpl.
    by rewrite (group_cut_observations edges k obs) by (done || lia). }
  rewrite (getitem_Some _ 0 (bin_mean edges 0 obs)), result_bind_Ok.
  2: { unfold series_values. rewrite <-list_fmap_compose, list_lookup_fmap.
       assert (seq 0 (Z.to_nat n) !! 0%nat = Some 0%nat) as ->; [|done].
       apply lookup_seq. lia. }
  unfold series_values, series_index.
  rewrite <-!list_fmap_compose.
  unfold radial_calls, bin_means, bin_ticks.
  rewrite length_app, Nat.add_1_r. simpl.
  by rewrite take_app_length.
Qed.

Lemma plot_radial_bar_spec (self : WindAnalysis) (df : DataFrame)
    (ws wd : string) (speeds dirs : list cell) (n : Z) (σ : state) :
  heap σ !! data self = Some df →
  wind_columns df ws wd speeds dirs →
  ws ≠ "sector" → 0 < n <= 720 →
  ∃ (h' : gmap loc DataFrame) (edges angles : list Q) (a0 : Q),
    heap σ ⊆ h' ∧
    np_linspace 0 360 (n + 1) true = Ok edges ∧
    np_linspace 0 (2 * np_pi) n false = Ok angles ∧
    length angles = Z.to_nat n ∧
    angles !! 0%nat = Some a0 ∧
    plot_radial_bar self ws wd n σ
    = (Ok tt,
       State h' (calls σ
                 ++ radial_calls edges n (observations speeds dirs)
                      angles a0)).
Proof.
  intros Hdf Hcols Hws Hn.
  destruct (plot_radial_bar_run self df ws wd n σ Hdf) as (h' & Hh' & Hrun).
  destruct (radial_chart_spec ws wd n (observations speeds dirs))
    as (edges & angles & a0 & Hlin & Hang & Hlen & Ha0 & Hchart);
    [by destruct Hcols as (_ & _ & ?)|done..|].
  exists h', edges, angles, a0. repeat split; [done..|].
  rewrite Hrun, (df_getitem_list_wind df ws wd speeds dirs) by done. simpl.
  by rewrite dropna_frame_of, Hchart.
Qed.

(** ** Observations of a dataset *)

Lemma observations_app (s1 s2 d1 d2 : list cell) :
  length s1 = length d1 →
  observations (s1 ++ s2) (d1 ++ d2)
  = observations s1 d1 ++ observations s2 d2.
Proof.
  revert d1. induction s1 as [|s s1 IH]; intros [|d d1] Hlen;
    simplify_eq/=; [done|].
  rewrite IH by done. by destruct s, d.
Qed.

Lemma observations_missing_row (s1 s2 d1 d2 : list cell) (x y : cell) :
  length s1 = length d1 → notna x && notna y = false →
  observations (s1 ++ x :: s2) (d1 ++ y :: d2)
  = observations (s1 ++ s2) (d1 ++ d2).
Proof.
  intros Hlen Hxy. rewrite !observations_app by done. f_equal.
  by destruct x, y.
Qed.

(** The result and the plotting calls of the two methods are determined by
    the observations of the dataset. *)
Lemma plots_of_observations (cm : string → result colormap)
    (bar : column → column → bool → list Q → colormap → result unit)
    (self : WindAnalysis) (df df' : DataFrame) (ws wd : string)
    (speeds dirs speeds' dirs' : list cell) (n : Z)
    (bins : option (list Q)) (cmap : cmap_arg) (σ σ' : state) :
  heap σ !! data self = Some df →
  heap σ' !! data self = Some df' →
  calls σ = calls σ' →
  wind_columns df ws wd speeds dirs →
  wind_columns df' ws wd speeds' dirs' →
  observations speeds dirs = observations speeds' dirs' →
  ((plot_radial_bar self ws wd n σ).1
     = (plot_radial_bar self ws wd n σ').1 ∧
   calls (plot_radial_bar self ws wd n σ).2
     = calls (plot_radial_bar self ws wd n σ').2) ∧
  ((plot_wind_rose cm bar self ws wd bins cmap σ).1
     = (plot_wind_rose cm bar self ws wd bins cmap σ').1 ∧
   calls (plot_wind_rose cm bar self ws wd bins cmap σ).2
     = calls (plot_wind_rose cm bar self ws wd bins cmap σ').2).
Proof.
  intros Hdf Hdf' Hcalls Hcols Hcols' Hobs.
  destruct (plot_radial_bar_run self df ws wd n σ Hdf) as (h1 & _ & ->).
  destruct (plot_radial_bar_run self df' ws wd n σ' Hdf') as (h2 & _ & ->).
  destruct (plot_wind_rose_run cm bar self df ws wd bins cmap σ Hdf)
    as (h3 & _ & ->).
  destruct (plot_wind_rose_run cm bar self df' ws wd bins cmap σ' Hdf')
    as (h4 & _ & ->).
  rewrite (df_getitem_list_wind df ws wd speeds dirs) by done.
  rewrite (df_getitem_list_wind df' ws wd speeds' dirs') by done.
  rewrite !result_bind_Ok, !dropna_frame_of, Hobs, Hcalls. done.
Qed.

(** ** Sectors of the circle *)

Lemma edge_le_lt (n : Z) (i j : nat) :
  0 < n → (i < j)%nat → (edge n i < edge n j)%Q.
Proof.
  intros Hn Hij. unfold edge.
  apply Qmult_lt_r.
  { apply Qinv_lt_0_compat. by change 0%Q with (inject_Z 0); rewrite <-Zlt_Qlt. }
  apply Qmult_lt_l; [done|]. rewrite <-Zlt_Qlt. lia.
Qed.

Lemma edge_le (n : Z) (i j : nat) :
  0 < n → (i ≤ j)%nat → (edge n i <= edge n j)%Q.
Proof.
  intros Hn Hij. destruct (decide (i = j)) as [->|?]; [apply Qle_refl|].
  apply Qlt_le_weak, edge_le_lt; [done|lia].
Qed.

Lemma edge_nonneg (n : Z) (k : nat) : 0 < n → (0 <= edge n k)%Q.
Proof.
  intros Hn. rewrite <-(edge_0 n). apply edge_le; [done|lia].
Qed.

Lemma sector_360_none (n : Z) (k : nat) (q : Q) :
  0 < n → (k < Z.to_nat n)%nat → (q == 360)%Q → ¬ in_sector n k q.
Proof.
  intros Hn Hk Hq [_ H]. rewrite Hq, <-(edge_n n) in H by done.
  apply Qlt_not_le in H. apply H, edge_le; [done|lia].
Qed.

Lemma sector_outside_none (n : Z) (k : nat) (q : Q) :
  0 < n → (k < Z.to_nat n)%nat → (q < 0)%Q ∨ (360 <= q)%Q →
  ¬ in_sector n k q.
Proof.
  intros Hn Hk [Hq|Hq] [H1 H2].
  - apply (Qlt_irrefl q). eapply Qlt_le_trans; [exact Hq|].
    eapply Qle_trans; [|exact H1]. by apply edge_nonneg.
  - apply (Qlt_irrefl q). eapply Qlt_le_trans; [exact H2|].
    eapply Qle_trans; [|exact Hq].
    rewrite <-(edge_n n) by done. apply edge_le; [done|lia].
Qed.

(** ** Bins of the edges the code computes *)

Lemma in_binb_spec (edges : list Q) (k : nat) (d : Q) :
  in_binb edges k d = true ↔ in_bin edges k d.
Proof.
  unfold in_binb, in_bin.
  rewrite andb_true_iff, negb_true_iff, Qle_bool_iff.
  split; intros [H1 H2]; (split; [done|]).
  - apply Qnot_le_lt. intros H. apply Qle_bool_iff in H. congruence.
  - destruct (Qle_bool (edge_at edges (S k)) d) eqn:H; [|done].
    apply Qle_bool_iff in H. by apply Qle_not_lt in H.
Qed.

Lemma edge_at_outside (edges : list Q) (k : nat) :
  (length edges ≤ k)%nat → edge_at edges k = 0%Q.
Proof.
  intros Hk. unfold edge_at. by rewrite (proj2 (lookup_ge_None _ _) Hk).
Qed.

Lemma bin_exists (n : Z) (edges : list Q) (d : Q) :
  edge_at edges 0 = 0%Q → edge_at edges (Z.to_nat n) = 360%Q →
  (0 <= d)%Q → (d < 360)%Q →
  ∃ k, (k < Z.to_nat n)%nat ∧ in_bin edges k d.
Proof.
  intros He0 Hen Hd0 Hd360.
  assert (∀ m, (d < edge_at edges m)%Q →
               ∃ k, (k < m)%nat ∧ in_bin edges k d) as H.
  { induction m as [|m IH]; intros Hm.
    - rewrite He0 in Hm. lra.
    - destruct (Qlt_le_dec d (edge_at edges m)) as [Hlt|Hle].
      + destruct (IH Hlt) as (k & Hk & Hin). exists k. split; [lia|done].
      + exists m. split; [lia|]. by split. }
  apply H. by rewrite Hen.
Qed.

Lemma bin_unique (edges : list Q) (k k' : nat) (d : Q) :
  increasing edges → (0 <= d)%Q →
  in_bin edges k d → in_bin edges k' d → k = k'.
Proof.
  intros Hinc Hd.
  assert (∀ i j, (i < j)%nat → in_bin edges i d → in_bin edges j d → False)
    as Hlt.
  { intros i j Hij [H1 H2] [H1' H2'].
    destruct (decide (S j < length edges)%nat) as [Hj|Hj].
    - pose proof (increasing_edge_at_le edges (S i) j Hinc ltac:(lia)
                    ltac:(lia)). lra.
    - rewrite edge_at_outside in H2' by lia. lra. }
  intros Hk Hk'.
  destruct (Nat.lt_trichotomy k k') as [?|[?|?]]; [|done|].
  - by destruct (Hlt k k').
  - by destruct (Hlt k' k).
Qed.

Lemma bin_outside_none (n : Z) (edges : list Q) (k : nat) (q : Q) :
  length edges = S (Z.to_nat n) →
  edge_at edges 0 = 0%Q → edge_at edges (Z.to_nat n) = 360%Q →
  increasing edges →
  (k < Z.to_nat n)%nat → (q < 0)%Q ∨ (360 <= q)%Q →
  ¬ in_bin edges k q.
Proof.
  intros Hlen He0 Hen Hinc Hk Hq [H1 H2].
  pose proof (increasing_edge_at_le edges 0 k Hinc ltac:(lia) ltac:(lia)).
  pose proof (increasing_edge_at_le edges (S k) (Z.to_nat n) Hinc
                ltac:(lia) ltac:(lia)).
  rewrite He0 in *. rewrite Hen in *. destruct Hq; lra.
Qed.

Lemma code_is_Some (k : nat) (o : option nat) :
  code_is k o = true ↔ o = Some k.
Proof.
  destruct o as [j|]; simpl; [|done].
  rewrite Nat.eqb_eq. split; [by intros ->|by intros [= ->]].
Qed.

Lemma cut_code_in_bin (edges : list Q) (k : nat) (d : Q) :
  increasing edges → (S k < length edges)%nat →
  cut_code edges false (Num d) = Some k ↔ in_bin edges k d.
Proof.
  intros Hinc Hk.
  by rewrite <-code_is_Some, <-in_binb_spec, (cut_code_sector edges k d).
Qed.

Lemma cut_code_above (n : Z) (edges : list Q) (q : Q) :
  length edges = S (Z.to_nat n) → edge_at edges (Z.to_nat n) = 360%Q →
  increasing edges → (360 <= q)%Q →
  cut_code edges false (Num q) = None.
Proof.
  intros Hlen Hen Hinc Hq.
  unfold cut_code. rewrite searchsorted_right_all.
  - by rewrite Nat.eqb_refl, orb_true_r.
  - intros x Hx. apply list_elem_of_lookup in Hx as [k Hk].
    pose proof (lookup_lt_Some _ _ _ Hk) as Hkn.
    pose proof (increasing_edge_at_le edges k (Z.to_nat n) Hinc
                  ltac:(lia) ltac:(lia)) as Hle.
    rewrite (edge_at_lookup _ _ _ Hk), Hen in Hle. lra.
Qed.

Lemma bin_means_length (edges : list Q) (n : Z) (obs : list (Q * Q)) :
  length (bin_means edges n obs) = Z.to_nat n.
Proof. unfold bin_means. by rewrite length_fmap, length_seq. Qed.

Lemma bin_means_lookup (edges : list Q) (n : Z) (obs : list (Q * Q))
    (k : nat) :
  (k < Z.to_nat n)%nat →
  bin_means edges n obs !! k = Some (bin_mean edges k obs).
Proof.
  intros Hk. unfold bin_means.
  by rewrite list_lookup_fmap, lookup_seq_lt.
Qed.

Lemma bin_speeds_nil (edges : list Q) (k : nat) (obs : list (Q * Q)) :
  (∀ s d, (s, d) ∈ obs → ¬ in_bin edges k d) → bin_speeds edges k obs = [].
Proof.
  intros Hnone. unfold bin_speeds.
  induction obs as [|[s d] obs IH]; [done|].
  rewrite filter_cons_False.
  - apply IH. intros s' d' Hin. apply (Hnone s'). by right.
  - simpl. rewrite in_binb_spec. apply (Hnone s d). left.
Qed.

Lemma bin_speeds_skip (edges : list Q) (k : nat) (obs1 obs2 : list (Q * Q))
    (s d : Q) :
  ¬ in_bin edges k d →
  bin_speeds edges k (obs1 ++ (s, d) :: obs2)
  = bin_speeds edges k (obs1 ++ obs2).
Proof.
  intros Hd. unfold bin_speeds.
  rewrite !filter_app, filter_cons_False; [done|].
  simpl. by rewrite in_binb_spec.
Qed.

Lemma bin_speeds_one (edges : list Q) (k : nat) (obs1 obs2 : list (Q * Q))
    (s d : Q) :
  in_bin edges k d →
  (∀ s' d', (s', d') ∈ obs1 ++ obs2 → ¬ in_bin edges k d') →
  bin_speeds edges k (obs1 ++ (s, d) :: obs2) = [s].
Proof.
  intros Hd Hnone. unfold bin_speeds.
  rewrite filter_app, filter_cons_True by (simpl; by rewrite in_binb_spec).
  fold (bin_speeds edges k obs1). fold (bin_speeds edges k obs2).
  rewrite fmap_app, fmap_cons.
  fold (bin_speeds edges k obs1). fold (bin_speeds edges k obs2).
  rewrite !bin_speeds_nil; [done|..];
    intros s' d' Hin; apply (Hnone s'); set_solver.
Qed.

Lemma bin_mean_none (edges : list Q) (k : nat) (obs : list (Q * Q)) :
  (∀ s d, (s, d) ∈ obs → ¬ in_bin edges k d) → bin_mean edges k obs = NaN.
Proof. intros H. unfold bin_mean. by rewrite bin_speeds_nil. Qed.

Lemma bin_mean_one (edges : list Q) (k : nat) (obs1 obs2 : list (Q * Q))
    (s d : Q) :
  in_bin edges k d →
  (∀ s' d', (s', d') ∈ obs1 ++ obs2 → ¬ in_bin edges k d') →
  ∃ m, bin_mean edges k (obs1 ++ (s, d) :: obs2) = Num m.
Proof.
  intros Hd Hnone. unfold bin_mean. rewrite bin_speeds_one by done.
  by eexists.
Qed.

Lemma bin_means_no_data (edges : list Q) (n : Z) :
  bin_means edges n [] = replicate (Z.to_nat n) NaN.
Proof.
  unfold bin_means.
  rewrite (const_fmap _ _ NaN) by done. by rewrite length_seq.
Qed.

Lemma radial_calls_skip (edges : list Q) (n : Z) (obs1 obs2 : list (Q * Q))
    (s q : Q) (angles : list Q) (a0 : Q) :
  0 < n → (∀ k, (k < Z.to_nat n)%nat → ¬ in_bin edges k q) →
  radial_calls edges n (obs1 ++ (s, q) :: obs2) angles a0
  = radial_calls edges n (obs1 ++ obs2) angles a0.
Proof.
  intros Hn Hq.
  assert (∀ k, (k < Z.to_nat n)%nat →
               bin_mean edges k (obs1 ++ (s, q) :: obs2)
               = bin_mean edges k (obs1 ++ obs2)) as Hmean.
  { intros k Hk. unfold bin_mean.
    by rewrite bin_speeds_skip by (by apply Hq). }
  unfold radial_calls, bin_means. f_equal. f_equal.
  - apply list_fmap_ext. intros i k Hk. apply lookup_seq in Hk as [-> Hk].
    by apply Hmean.
  - f_equal. apply Hmean. lia.
Qed.

(** ** More than 720 sectors *)

Lemma int_of_float_unit (y : Q) : (0 <= y)%Q → (y < 1)%Q → int_of_float y = 0.
Proof.
  intros H0 H1. rewrite int_of_float_floor by done.
  assert (0 <= Qfloor y).
  { rewrite <-(Qfloor_Z 0). by apply Qfloor_resp_le. }
  assert (Qfloor y < 1); [|lia].
  rewrite Zlt_Qlt. pose proof (Qfloor_le y). change (inject_Z 1) with 1%Q. lra.
Qed.

Lemma linspace_first_small (n : Z) (edges : list Q) (k : nat) :
  720 < n → np_linspace 0 360 (n + 1) true = Ok edges → (k ≤ 2)%nat →
  (0 <= edge_at edges k)%Q ∧ (edge_at edges k < 1)%Q.
Proof.
  intros Hn Hlin Hk. unfold np_linspace in Hlin.
  destruct (Z.ltb_spec (n + 1) 0) as [?|_]; [lia|].
  replace (n + 1 - 1) with n in Hlin by lia.
  destruct (Z.ltb_spec 0 n) as [_|?]; [|lia].
  destruct (Z.ltb_spec 1 (n + 1)) as [_|?]; [|lia].
  cbn [andb] in Hlin.
  pose proof fsub_360 as Hdelta. set (delta := fsub 360 0) in *.
  set (D := inject_Z n) in *. set (K := inject_Z (Z.of_nat k)).
  assert (721 <= D)%Q as HD
    by (change 721%Q with (inject_Z 721); unfold D; rewrite <-Zle_Qle; lia).
  assert (0 <= K)%Q as HK0
    by (change 0%Q with (inject_Z 0); unfold K; rewrite <-Zle_Qle; lia).
  assert (K <= 2)%Q as HK2
    by (change 2%Q with (inject_Z 2); unfold K; rewrite <-Zle_Qle; lia).
  set (u := (1 # Z.to_pos (2 ^ (53 - 0)))%Q).
  assert (0 < u)%Q as Hu0 by done.
  assert (u <= 1 # 1000000)%Q as Hu by done.
  change (inject_Z (2 ^ 0)) with 1%Q in *.
  destruct (Qeq_bool (fdiv delta D) 0) eqn:Hstep;
    injection Hlin as <-; unfold edge_at;
    rewrite list_lookup_insert_ne, !list_lookup_fmap, lookup_seqZ_lt
      by (rewrite ?length_fmap, ?length_seqZ; lia);
    cbn [fmap option_fmap option_map default]; rewrite Z.add_0_l; fold K;
    unfold fadd, fmul, fdiv.
  - set (y0 := (K / D)%Q).
    assert (y0 * D == K)%Q as Hy0 by (unfold y0; field; lra).
    assert (0 <= y0)%Q by nra. assert (721 * y0 <= 2)%Q by nra.
    destruct (round64_error y0 0) as (Hr0 & _ & Hr2); [lia|lra|..].
    { change (inject_Z (2 ^ 0)) with 1%Q. lra. }
    fold u in Hr2. set (r := round64 y0) in *.
    assert (r * delta == r * 360)%Q as Hx1 by (by rewrite Hdelta).
    set (x1 := (r * delta)%Q) in *.
    destruct (round64_error x1 0) as (Hv0 & _ & Hv2); [lia|lra|..].
    { change (inject_Z (2 ^ 0)) with 1%Q. lra. }
    fold u in Hv2. set (v := round64 x1) in *.
    destruct (round64_error (v + 0) 0) as (He0 & _ & He2); [lia|lra|..].
    { change (inject_Z (2 ^ 0)) with 1%Q. lra. }
    fold u in He2. unfold id. split; [done|]. lra.
  - set (x0 := (delta / D)%Q).
    assert (x0 * D == 360)%Q as Hx0.
    { unfold x0. rewrite Hdelta. field. lra. }
    assert (0 <= x0)%Q by nra. assert (721 * x0 <= 360)%Q by nra.
    destruct (round64_error x0 0) as (Hs0 & _ & Hs2); [lia|lra|..].
    { change (inject_Z (2 ^ 0)) with 1%Q. lra. }
    fold u in Hs2. set (step := round64 x0) in *.
    assert (0 <= K * step)%Q as Hx1a by nra.
    assert (K * step <= 2 * step)%Q as Hx1b by nra.
    set (x1 := (K * step)%Q) in *.
    destruct (round64_error x1 0) as (Hv0 & _ & Hv2); [lia|lra|..].
    { change (inject_Z (2 ^ 0)) with 1%Q. lra. }
    fold u in Hv2. set (v := round64 x1) in *.
    destruct (round64_error (v + 0) 0) as (He0 & _ & He2); [lia|lra|..].
    { change (inject_Z (2 ^ 0)) with 1%Q. lra. }
    fold u in He2. unfold id. split; [done|]. lra.
Qed.

Lemma labels_repeat (n : Z) (edges : list Q) :
  720 < n → np_linspace 0 360 (n + 1) true = Ok edges →
  bin_label edges 0 = "0-0" ∧ bin_label edges 1 = "0-0".
Proof.
  intros Hn Hlin.
  destruct (linspace_first_small n edges 0 Hn Hlin) as [? ?]; [lia|].
  destruct (linspace_first_small n edges 1 Hn Hlin) as [? ?]; [lia|].
  destruct (linspace_first_small n edges 2 Hn Hlin) as [? ?]; [lia|].
  unfold bin_label, sector_label.
  by rewrite !int_of_float_unit by done.
Qed.

Lemma labels_not_unique (n : Z) (edges : list Q) :
  720 < n → np_linspace 0 360 (n + 1) true = Ok edges →
  ¬ NoDup (bin_label edges <$> seq 0 (Z.to_nat n)).
Proof.
  intros Hn Hlin Hnodup.
  destruct (labels_repeat n edges Hn Hlin) as [H0 H1].
  assert (0%nat = 1%nat) as Heq; [|done].
  apply (NoDup_lookup _ _ _ "0-0" Hnodup).
  - by rewrite list_lookup_fmap, lookup_seq_lt, <-H0 by lia.
  - by rewrite list_lookup_fmap, lookup_seq_lt, <-H1 by lia.
Qed.

Lemma pd_cut_duplicate_labels (xs : list cell) (bins : list Q)
    (labels : list string) (right : bool) :
  ¬ NoDup labels → pd_cut (NumCol xs) bins labels right = Raise ValueError.
Proof.
  intros Hdup. unfold pd_cut.
  rewrite (bool_decide_eq_false_2 (NoDup labels)) by done.
  by repeat case_match.
Qed.

Lemma radial_chart_too_many (ws wd : string) (speeds dirs : list cell)
    (n : Z) :
  ws ≠ wd → 720 < n →
  radial_chart (frame_of ws wd speeds dirs) ws wd n = Raise ValueError.
Proof.
  intros Hne Hn. unfold radial_chart.
  destruct (linspace_length 0 360 (n + 1) true) as (edges & Hlin & Hlen);
    [lia|].
  rewrite Hlin, result_bind_Ok.
  destruct (df_getitem_frame_of ws wd speeds dirs Hne) as [_ ->].
  rewrite result_bind_Ok.
  rewrite (sector_labels_edges n edges), result_bind_Ok
    by (rewrite Hlen; lia).
  by rewrite pd_cut_duplicate_labels by (by apply labels_not_unique).
Qed.

Lemma plot_radial_bar_too_many (self : WindAnalysis) (df : DataFrame)
    (ws wd : string) (speeds dirs : list cell) (n : Z) (σ : state) :
  heap σ !! data self = Some df →
  wind_columns df ws wd speeds dirs →
  720 < n →
  (plot_radial_bar self ws wd n σ).1 = Raise ValueError ∧
  calls (plot_radial_bar self ws wd n σ).2 = calls σ.
Proof.
  intros Hdf Hcols Hn.
  destruct (plot_radial_bar_run self df ws wd n σ Hdf) as (h' & _ & ->).
  rewrite (df_getitem_list_wind df ws wd speeds dirs) by done.
  rewrite result_bind_Ok, dropna_frame_of.
  destruct Hcols as (_ & _ & Hne).
  rewrite radial_chart_too_many by done.
  simpl. by rewrite app_nil_r.
Qed.

(** * The claims *)

(** C1, as the code has it.  When every row is filtered out (no row has both
    its speed and its direction), [plot_radial_bar] raises no error: every
    sector mean is [NaN], and the call returns after filling the chart with
    [num_bins + 1] values [NaN], which draws nothing. *)
Theorem no_data_is_plotted_blank (self : WindAnalysis) (df : DataFrame)
    (ws wd : string) (speeds dirs : list cell) (n : Z) (σ : state) :
  heap σ !! data self = Some df →
  wind_columns df ws wd speeds dirs →
  ws ≠ "sector" →
  0 < n <= 720 →
  observations speeds dirs = [] →
  ∃ (h' : gmap loc DataFrame) (angles ticks : list Q)
    (labels : list index_label),
    plot_radial_bar self ws wd n σ
    = (Ok tt,
       State h' (calls σ ++
                 chart_calls angles (replicate (Z.to_nat (n + 1)) NaN)
                             ticks labels)).
Proof.
  intros Hdf Hcols Hws Hn Hobs.
  destruct (plot_radial_bar_spec self df ws wd speeds dirs n σ)
    as (h' & edges & angles & a0 & _ & _ & _ & _ & _ & ->); [done..|].
  eexists h', _, _, _. unfold radial_calls.
  rewrite Hobs, bin_means_no_data.
  replace (Z.to_nat (n + 1)) with (S (Z.to_nat n)) by lia.
  by rewrite replicate_S_end.
Qed.

Lemma no_data_is_plotted_blank_witness :
  let σ := State {[ 1%positive :=
                      frame_of "WS" "WD" [NaN; Num 3] [Num 10; NaN] ]} [] in
  ∃ (h' : gmap loc DataFrame) (angles ticks : list Q)
    (labels : list index_label),
    plot_radial_bar (init 1%positive) "WS" "WD" 8 σ
    = (Ok tt,
       State h' (calls σ ++
                 chart_calls angles (replicate (Z.to_nat (8 + 1)) NaN)
                             ticks labels)).
Proof.
  intros σ.
  apply (no_data_is_plotted_blank (init 1%positive)
           (frame_of "WS" "WD" [NaN; Num 3] [Num 10; NaN]) "WS" "WD"
           [NaN; Num 3] [Num 10; NaN] 8 σ).
  - reflexivity.
  - repeat split; [reflexivity..|discriminate].
  - discriminate.
  - lia.
  - reflexivity.
Defined.

(** C1, as the specification has it, fails: on a dataset of two rows, one
    without a speed and one without a direction, every row is filtered out
    and the call with eight sectors returns normally; it raises nothing. *)
Lemma no_data_error_counterexample :
  let df := frame_of "WS" "WD" [NaN; Num 3] [Num 10; NaN] in
  let σ := State {[ 1%positive := df ]} [] in
  dropna df = frame_of "WS" "WD" [] [] ∧
  (plot_radial_bar (init 1%positive) "WS" "WD" 8 σ).1 = Ok tt ∧
  ¬ ∃ e, (plot_radial_bar (init 1%positive) "WS" "WD" 8 σ).1 = Raise e.
Proof.
  intros df σ.
  assert ((plot_radial_bar (init 1%positive) "WS" "WD" 8 σ).1 = Ok tt) as H
    by (by vm_compute).
  split; [reflexivity|]. split; [done|].
  intros [e He]. rewrite H in He. discriminate.
Qed.

(** C2.  Rows in which the speed or the direction is missing contribute to
    neither chart: a dataset with such a row added anywhere gives, with both
    methods, the same result and the same plotting calls, arguments
    included, as the dataset without it. *)
Theorem missing_rows_contribute_nothing (cm : string → result colormap)
    (bar : column → column → bool → list Q → colormap → result unit)
    (self : WindAnalysis) (df df' : DataFrame) (ws wd : string)
    (s1 s2 d1 d2 : list cell) (x y : cell) (n : Z)
    (bins : option (list Q)) (cmap : cmap_arg) (σ σ' : state) :
  heap σ !! data self = Some df →
  heap σ' !! data self = Some df' →
  calls σ = calls σ' →
  wind_columns df ws wd (s1 ++ s2) (d1 ++ d2) →
  wind_columns df' ws wd (s1 ++ x :: s2) (d1 ++ y :: d2) →
  length s1 = length d1 →
  x = NaN ∨ y = NaN →
  ((plot_radial_bar self ws wd n σ').1
     = (plot_radial_bar self ws wd n σ).1 ∧
   calls (plot_radial_bar self ws wd n σ').2
     = calls (plot_radial_bar self ws wd n σ).2) ∧
  ((plot_wind_rose cm bar self ws wd bins cmap σ').1
     = (plot_wind_rose cm bar self ws wd bins cmap σ).1 ∧
   calls (plot_wind_rose cm bar self ws wd bins cmap σ').2
     = calls (plot_wind_rose cm bar self ws wd bins cmap σ).2).
Proof.
  intros Hdf Hdf' Hcalls Hcols Hcols' Hlen Hxy.
  eapply plots_of_observations; [done..|].
  apply observations_missing_row; [done|].
  destruct Hxy as [-> | ->]; [done|]. by rewrite andb_false_r.
Qed.

Lemma missing_rows_contribute_nothing_witness :
  let cm := λ name, Ok (Colormap name) in
  let bar := λ (_ _ : column) (_ : bool) (_ : list Q) (_ : colormap), Ok tt in
  let self := init 1%positive in
  let σ := State {[ 1%positive :=
                      frame_of "WS" "WD" [Num 1; Num 2] [Num 0; Num 90] ]} [] in
  let σ' := State {[ 1%positive :=
                       frame_of "WS" "WD" [Num 1; NaN; Num 2]
                                          [Num 0; Num 45; Num 90] ]} [] in
  ((plot_radial_bar self "WS" "WD" 8 σ').1
     = (plot_radial_bar self "WS" "WD" 8 σ).1 ∧
   calls (plot_radial_bar self "WS" "WD" 8 σ').2
     = calls (plot_radial_bar self "WS" "WD" 8 σ).2) ∧
  ((plot_wind_rose cm bar self "WS" "WD" None (CmapStr "coolwarm") σ').1
     = (plot_wind_rose cm bar self "WS" "WD" None (CmapStr "coolwarm") σ).1 ∧
   calls (plot_wind_rose cm bar self "WS" "WD" None (CmapStr "coolwarm") σ').2
     = calls (plot_wind_rose cm bar self "WS" "WD" None
                (CmapStr "coolwarm") σ).2).
Proof.
  intros cm bar self σ σ'.
  apply (missing_rows_contribute_nothing cm bar self
           (frame_of "WS" "WD" [Num 1; Num 2] [Num 0; Num 90])
           (frame_of "WS" "WD" [Num 1; NaN; Num 2] [Num 0; Num 45; Num 90])
           "WS" "WD" [Num 1] [Num 2] [Num 0] [Num 90] NaN (Num 45) 8 None
           (CmapStr "coolwarm") σ σ').
  - reflexivity.
  - reflexivity.
  - reflexivity.
  - repeat split; [reflexivity..|discriminate].
  - repeat split; [reflexivity..|discriminate].
  - reflexivity.
  - left; reflexivity.
Defined.

(** C3, as the code has it.  For every [num_bins] from 1 to 720,
    [plot_radial_bar] divides the circle into [num_bins] sectors
    [[e k, e (k + 1))], where the boundaries [e 0 = 0 < e 1 < ... <
    e num_bins = 360] are the floats that [np.linspace] computes: [e k] is
    within [2^-34] of [360 * k / num_bins], and is that number when
    [num_bins] divides 360.  Every direction in [[0, 360)] lies in exactly
    one sector, and the binning step gives a row the sector its direction
    lies in, the lower boundary included and the upper one not.  Sector [k]
    is labelled with the integer parts of its two boundaries, low then high
    with "-" between; the labels differ from each other and are the tick
    labels of the chart.  The value the chart is filled with at the position
    of a sector is [NaN] when no observation lies in the sector and a number
    when one does.  For eight sectors the boundaries are 0, 45, 90, ...,
    360. *)
Theorem sectors_partition_the_circle (n : Z) :
  0 < n <= 720 →
  ∃ (edges : list Q) (labels : list string),
    np_linspace 0 360 (n + 1) true = Ok edges ∧
    sector_labels edges n = Ok labels ∧
    Z.of_nat (length edges) = n + 1 ∧
    Z.of_nat (length labels) = n ∧
    edge_at edges 0 = 0%Q ∧
    edge_at edges (Z.to_nat n) = 360%Q ∧
    increasing edges ∧
    (∀ k, (k ≤ Z.to_nat n)%nat →
          (Qabs (edge_at edges k - edge n k) <= edge_tolerance)%Q) ∧
    (360 mod n = 0 →
     ∀ k, (k ≤ Z.to_nat n)%nat → (edge_at edges k == edge n k)%Q) ∧
    (∀ k, (k < Z.to_nat n)%nat →
          labels !! k
          = Some (pretty (Qfloor (edge_at edges k)) +:+ "-" +:+
                  pretty (Qfloor (edge_at edges (S k))))) ∧
    NoDup labels ∧
    (∀ xs, pd_cut (NumCol xs) edges labels false
           = Ok (CatCol labels (cut_code edges false <$> xs))) ∧
    (∀ d k, (k < Z.to_nat n)%nat →
            cut_code edges false (Num d) = Some k ↔ in_bin edges k d) ∧
    (∀ d, (0 <= d)%Q → (d < 360)%Q →
          ∃ k, (k < Z.to_nat n)%nat ∧ in_bin edges k d ∧
               ∀ k', in_bin edges k' d → k' = k) ∧
    (∀ self df ws wd speeds dirs σ,
        heap σ !! data self = Some df →
        wind_columns df ws wd speeds dirs →
        ws ≠ "sector" →
        ∃ h' angles values ticks,
          plot_radial_bar self ws wd n σ
          = (Ok tt,
             State h' (calls σ ++
                       chart_calls angles values ticks (LStr <$> labels))) ∧
          (∀ k, (k < Z.to_nat n)%nat →
                (∀ s d, (s, d) ∈ observations speeds dirs →
                        ¬ in_bin edges k d) →
                values !! k = Some NaN) ∧
          (∀ k o1 o2 s d,
              (k < Z.to_nat n)%nat →
              observations speeds dirs = o1 ++ (s, d) :: o2 →
              in_bin edges k d →
              (∀ s' d', (s', d') ∈ o1 ++ o2 → ¬ in_bin edges k d') →
              ∃ m, values !! k = Some (Num m))) ∧
    (n = 8 →
     edges = [0; 45; 90; 135; 180; 225; 270; 315; 360]%Q ∧
     labels = ["0-45"; "45-90"; "90-135"; "135-180"; "180-225"; "225-270";
               "270-315"; "315-360"]).
Proof.
  intros Hn.
  destruct (linspace_edges n Hn)
    as (edges & Hlin & Hlen & He0 & Hen & Hclose & Hinc & Hspread).
  exists edges, (bin_label edges <$> seq 0 (Z.to_nat n)).
  split; [done|]. split; [by apply sector_labels_edges|].
  split; [lia|]. split; [rewrite length_fmap, length_seq; lia|].
  split; [done|]. split; [done|]. split; [done|].
  split; [intros k Hk; by apply Hclose|].
  split.
  { intros Hmod k Hk. apply edge_exact_divisor; [lia|done..|lia]. }
  split.
  { intros k Hk. rewrite list_lookup_fmap, lookup_seq_lt by done. simpl.
    unfold bin_label, sector_label.
    by rewrite !int_of_float_floor by (apply Hclose; lia). }
  split.
  { apply bin_label_NoDup; [done|by rewrite He0|done..]. }
  split.
  { intros xs. apply pd_cut_edges; [done|lia|by rewrite He0|done..]. }
  split.
  { intros d k Hk. apply cut_code_in_bin; [done|lia]. }
  split.
  { intros d Hd0 Hd360.
    destruct (bin_exists n edges d) as (k & Hk & Hin); [done..|].
    exists k. split; [done|]. split; [done|].
    intros k' Hin'. by apply (bin_unique edges k' k d). }
  split.
  { intros self df ws wd speeds dirs σ Hdf Hcols Hws.
    destruct (plot_radial_bar_spec self df ws wd speeds dirs n σ)
      as (h' & edges' & angles & a0 & _ & Hlin' & _ & _ & _ & ->); [done..|].
    assert (edges' = edges) as -> by congruence.
    eexists h', _, _, _. unfold radial_calls, bin_ticks.
    split; [by rewrite <-list_fmap_compose|]. split.
    - intros k Hk Hnone.
      rewrite lookup_app_l by (by rewrite bin_means_length).
      rewrite bin_means_lookup by done. f_equal. by apply bin_mean_none.
    - intros k o1 o2 s d Hk Hobs Hin Hnone.
      rewrite lookup_app_l by (by rewrite bin_means_length).
      rewrite bin_means_lookup, Hobs by done.
      destruct (bin_mean_one edges k o1 o2 s d Hin Hnone) as [m ->].
      by exists m. }
  intros ->. vm_compute in Hlin. injection Hlin as <-. done.
Qed.

Lemma sectors_partition_the_circle_witness :
  ∃ (edges : list Q) (labels : list string),
    np_linspace 0 360 (8 + 1) true = Ok edges ∧
    sector_labels edges 8 = Ok labels ∧
    Z.of_nat (length edges) = 8 + 1 ∧
    Z.of_nat (length labels) = 8 ∧
    edge_at edges 0 = 0%Q ∧
    edge_at edges (Z.to_nat 8) = 360%Q ∧
    increasing edges ∧
    (∀ k, (k ≤ Z.to_nat 8)%nat →
          (Qabs (edge_at edges k - edge 8 k) <= edge_tolerance)%Q) ∧
    (360 mod 8 = 0 →
     ∀ k, (k ≤ Z.to_nat 8)%nat → (edge_at edges k == edge 8 k)%Q) ∧
    (∀ k, (k < Z.to_nat 8)%nat →
          labels !! k
          = Some (pretty (Qfloor (edge_at edges k)) +:+ "-" +:+
                  pretty (Qfloor (edge_at edges (S k))))) ∧
    NoDup labels ∧
    (∀ xs, pd_cut (NumCol xs) edges labels false
           = Ok (CatCol labels (cut_code edges false <$> xs))) ∧
    (∀ d k, (k < Z.to_nat 8)%nat →
            cut_code edges false (Num d) = Some k ↔ in_bin edges k d) ∧
    (∀ d, (0 <= d)%Q → (d < 360)%Q →
          ∃ k, (k < Z.to_nat 8)%nat ∧ in_bin edges k d ∧
               ∀ k', in_bin edges k' d → k' = k) ∧
    (∀ self df ws wd speeds dirs σ,
        heap σ !! data self = Some df →
        wind_columns df ws wd speeds dirs →
        ws ≠ "sector" →
        ∃ h' angles values ticks,
          plot_radial_bar self ws wd 8 σ
          = (Ok tt,
             State h' (calls σ ++
                       chart_calls angles values ticks (LStr <$> labels))) ∧
          (∀ k, (k < Z.to_nat 8)%nat →
                (∀ s d, (s, d) ∈ observations speeds dirs →
                        ¬ in_bin edges k d) →
                values !! k = Some NaN) ∧
          (∀ k o1 o2 s d,
              (k < Z.to_nat 8)%nat →
              observations speeds dirs = o1 ++ (s, d) :: o2 →
              in_bin edges k d →
              (∀ s' d', (s', d') ∈ o1 ++ o2 → ¬ in_bin edges k d') →
              ∃ m, values !! k = Some (Num m))) ∧
    (8 = 8 →
     edges = [0; 45; 90; 135; 180; 225; 270; 315; 360]%Q ∧
     labels = ["0-45"; "45-90"; "90-135"; "135-180"; "180-225"; "225-270";
               "270-315"; "315-360"]).
Proof. apply (sectors_partition_the_circle 8). lia. Defined.

(** C3, as the specification has it, fails for 721 sectors: the first two
    labels are both "0-0", [pd.cut] rejects labels that are not unique, and
    the call raises [ValueError] before it bins or plots anything. *)
Lemma sectors_721_counterexample :
  let σ := State {[ 1%positive := frame4 ]} [] in
  1 <= 721 ∧
  (plot_radial_bar (init 1%positive) "WS" "WD" 721 σ).1 = Raise ValueError ∧
  calls (plot_radial_bar (init 1%positive) "WS" "WD" 721 σ).2 = [] ∧
  ∃ (edges : list Q) (labels : list string),
    np_linspace 0 360 (721 + 1) true = Ok edges ∧
    sector_labels edges 721 = Ok labels ∧
    labels !! 0%nat = Some "0-0" ∧
    labels !! 1%nat = Some "0-0" ∧
    ∀ xs, pd_cut (NumCol xs) edges labels false = Raise ValueError.
Proof.
  intros σ. split; [lia|].
  destruct (plot_radial_bar_too_many (init 1%positive) frame4 "WS" "WD"
              [Num 1; Num 2; Num 3; Num 4]
              [Num 0; Num 90; Num 180; Num 270] 721 σ) as [Hres Hcalls];
    [done|by repeat split|lia|].
  split; [done|]. split; [done|].
  destruct (linspace_length 0 360 (721 + 1) true) as (edges & Hlin & Hlen);
    [lia|].
  exists edges, (bin_label edges <$> seq 0 (Z.to_nat 721)).
  split; [done|]. split; [by apply sector_labels_edges|].
  destruct (labels_repeat 721 edges) as [H0 H1]; [lia|done|].
  split; [by rewrite list_lookup_fmap, lookup_seq_lt, <-H0 by lia|].
  split; [by rewrite list_lookup_fmap, lookup_seq_lt, <-H1 by lia|].
  intros xs. apply pd_cut_duplicate_labels.
  apply labels_not_unique; [lia|done].
Qed.

(** C4.  In [plot_radial_bar] a row whose direction is exactly 360 falls in
    no sector: the binning step gives it no sector (its code is missing),
    and it contributes to no sector mean, the call on a dataset with such a
    row added giving the same result and plotting calls as without it. *)
Theorem direction_360_in_no_sector (self : WindAnalysis)
    (df df' : DataFrame) (ws wd : string) (s1 s2 d1 d2 : list cell)
    (x : cell) (q : Q) (n : Z) (σ σ' : state) :
  heap σ !! data self = Some df →
  heap σ' !! data self = Some df' →
  calls σ = calls σ' →
  wind_columns df ws wd (s1 ++ s2) (d1 ++ d2) →
  wind_columns df' ws wd (s1 ++ x :: s2) (d1 ++ Num q :: d2) →
  length s1 = length d1 →
  (q == 360)%Q →
  ws ≠ "sector" →
  0 < n <= 720 →
  (∀ k, (k < Z.to_nat n)%nat → ¬ in_sector n k q) ∧
  (∃ edges, np_linspace 0 360 (n + 1) true = Ok edges ∧
            cut_code edges false (Num q) = None) ∧
  (plot_radial_bar self ws wd n σ').1 = (plot_radial_bar self ws wd n σ).1 ∧
  calls (plot_radial_bar self ws wd n σ').2
  = calls (plot_radial_bar self ws wd n σ).2.
Proof.
  intros Hdf Hdf' Hcalls Hcols Hcols' Hlen Hq Hws Hn.
  destruct (linspace_edges n Hn)
    as (edges & Hlin & Hlen' & He0 & Hen & _ & Hinc & _).
  split; [|split].
  { intros k Hk. apply sector_360_none; [lia|done..]. }
  { exists edges. split; [done|]. apply (cut_code_above n); [done..|lra]. }
  destruct (plot_radial_bar_spec self df ws wd _ _ n σ Hdf Hcols Hws Hn)
    as (h1 & e1 & angles & a0 & _ & Hlin1 & Hang & _ & Ha0 & ->).
  destruct (plot_radial_bar_spec self df' ws wd _ _ n σ' Hdf' Hcols' Hws Hn)
    as (h2 & e2 & angles' & a0' & _ & Hlin2 & Hang' & _ & Ha0' & ->).
  assert (e1 = edges) as -> by congruence.
  assert (e2 = edges) as -> by congruence.
  assert (angles' = angles) as -> by congruence.
  assert (a0' = a0) as -> by congruence.
  simpl. split; [done|]. rewrite Hcalls. f_equal.
  rewrite !observations_app by done.
  destruct x as [|s]; simpl; [done|].
  apply radial_calls_skip; [lia|]. intros k Hk.
  apply (bin_outside_none n); [done..|right; lra].
Qed.

Lemma direction_360_in_no_sector_witness :
  let self := init 1%positive in
  let σ := State {[ 1%positive :=
                      frame_of "WS" "WD" [Num 1; Num 2] [Num 0; Num 90] ]} [] in
  let σ' := State {[ 1%positive :=
                       frame_of "WS" "WD" [Num 1; Num 7; Num 2]
                                          [Num 0; Num 360; Num 90] ]} [] in
  (∀ k, (k < Z.to_nat 8)%nat → ¬ in_sector 8 k 360) ∧
  (∃ edges, np_linspace 0 360 (8 + 1) true = Ok edges ∧
            cut_code edges false (Num 360) = None) ∧
  (plot_radial_bar self "WS" "WD" 8 σ').1
  = (plot_radial_bar self "WS" "WD" 8 σ).1 ∧
  calls (plot_radial_bar self "WS" "WD" 8 σ').2
  = calls (plot_radial_bar self "WS" "WD" 8 σ).2.
Proof.
  intros self σ σ'.
  apply (direction_360_in_no_sector self
           (frame_of "WS" "WD" [Num 1; Num 2] [Num 0; Num 90])
           (frame_of "WS" "WD" [Num 1; Num 7; Num 2] [Num 0; Num 360; Num 90])
           "WS" "WD" [Num 1] [Num 2] [Num 0] [Num 90] (Num 7) 360 8 σ σ').
  - reflexivity.
  - reflexivity.
  - reflexivity.
  - repeat split; [reflexivity..|discriminate].
  - repeat split; [reflexivity..|discriminate].
  - reflexivity.
  - reflexivity.
  - discriminate.
  - lia.
Defined.

(** C5.  The mean that [plot_radial_bar] computes for a sector without an
    observation is [NaN], not zero: when the binning step gives the code of
    sector [k] to no row that has both its values, the value the chart is
    filled with at the position of that sector is [NaN]. *)
Theorem empty_sector_mean_is_missing (self : WindAnalysis) (df : DataFrame)
    (ws wd : string) (speeds dirs : list cell) (n : Z) (k : nat)
    (edges : list Q) (σ : state) :
  heap σ !! data self = Some df →
  wind_columns df ws wd speeds dirs →
  ws ≠ "sector" →
  0 < n <= 720 →
  (k < Z.to_nat n)%nat →
  np_linspace 0 360 (n + 1) true = Ok edges →
  (∀ s d, (s, d) ∈ observations speeds dirs →
          cut_code edges false (Num d) ≠ Some k) →
  ∃ (h' : gmap loc DataFrame) (angles : list Q) (values : list cell)
    (ticks : list Q) (labels : list index_label),
    plot_radial_bar self ws wd n σ
    = (Ok tt, State h' (calls σ ++ chart_calls angles values ticks labels)) ∧
    values !! k = Some NaN.
Proof.
  intros Hdf Hcols Hws Hn Hk Hlin Hnone.
  destruct (linspace_edges n Hn)
    as (edges0 & Hlin0 & Hlen & _ & _ & _ & Hinc & _).
  assert (edges0 = edges) as -> by congruence.
  destruct (plot_radial_bar_spec self df ws wd speeds dirs n σ)
    as (h' & edges' & angles & a0 & _ & Hlin' & _ & _ & _ & ->); [done..|].
  assert (edges' = edges) as -> by congruence.
  eexists h', _, _, _, _. split; [reflexivity|].
  rewrite lookup_app_l by (by rewrite bin_means_length).
  rewrite bin_means_lookup by done. f_equal.
  apply bin_mean_none. intros s d Hin Hbin.
  apply (Hnone s d Hin). apply cut_code_in_bin; [done|lia|done].
Qed.

Lemma empty_sector_mean_is_missing_witness :
  let σ := State {[ 1%positive := frame4 ]} [] in
  ∃ (h' : gmap loc DataFrame) (angles : list Q) (values : list cell)
    (ticks : list Q) (labels : list index_label),
    plot_radial_bar (init 1%positive) "WS" "WD" 8 σ
    = (Ok tt, State h' (calls σ ++ chart_calls angles values ticks labels)) ∧
    values !! 1%nat = Some NaN.
Proof.
  intros σ.
  apply (empty_sector_mean_is_missing (init 1%positive) frame4 "WS" "WD"
           [Num 1; Num 2; Num 3; Num 4]
           [Num 0; Num 90; Num 180; Num 270] 8 1
           [0; 45; 90; 135; 180; 225; 270; 315; 360]%Q σ).
  - reflexivity.
  - repeat split; [reflexivity..|discriminate].
  - discriminate.
  - lia.
  - simpl. lia.
  - vm_compute. reflexivity.
  - intros s d Hin. simpl in Hin.
    repeat (apply elem_of_cons in Hin as [[= -> ->]|Hin]);
      [..|by apply elem_of_nil in Hin]; vm_compute; discriminate.
Defined.

(** C6.  After the closing step the angles and the values that
    [plot_radial_bar] passes to [ax.fill] both have [num_bins + 1]
    elements, and in each sequence the last element is the first one. *)
Theorem closed_sequences (self : WindAnalysis) (df : DataFrame)
    (ws wd : string) (speeds dirs : list cell) (n : Z) (σ : state) :
  heap σ !! data self = Some df →
  wind_columns df ws wd speeds dirs →
  ws ≠ "sector" →
  0 < n <= 720 →
  ∃ (h' : gmap loc DataFrame) (angles : list Q) (values : list cell)
    (ticks : list Q) (labels : list index_label),
    plot_radial_bar self ws wd n σ
    = (Ok tt, State h' (calls σ ++ chart_calls angles values ticks labels)) ∧
    Z.of_nat (length angles) = n + 1 ∧
    Z.of_nat (length values) = n + 1 ∧
    (∃ a, angles !! 0%nat = Some a ∧ last angles = Some a) ∧
    (∃ v, values !! 0%nat = Some v ∧ last values = Some v).
Proof.
  intros Hdf Hcols Hws Hn.
  destruct (plot_radial_bar_spec self df ws wd speeds dirs n σ)
    as (h' & edges & angles & a0 & _ & _ & _ & Hlen & Ha0 & ->); [done..|].
  eexists h', _, _, _, _. split; [reflexivity|].
  rewrite !length_app, bin_means_length, Hlen. simpl.
  repeat split; [lia..| |].
  - exists a0. split; [|by rewrite last_snoc].
    by rewrite lookup_app_l by (apply lookup_lt_Some in Ha0; done).
  - exists (bin_mean edges 0 (observations speeds dirs)).
    split; [|by rewrite last_snoc].
    rewrite lookup_app_l by (rewrite bin_means_length; lia).
    apply bin_means_lookup. lia.
Qed.

Lemma closed_sequences_witness :
  let σ := State {[ 1%positive := frame4 ]} [] in
  ∃ (h' : gmap loc DataFrame) (angles : list Q) (values : list cell)
    (ticks : list Q) (labels : list index_label),
    plot_radial_bar (init 1%positive) "WS" "WD" 8 σ
    = (Ok tt, State h' (calls σ ++ chart_calls angles values ticks labels)) ∧
    Z.of_nat (length angles) = 8 + 1 ∧
    Z.of_nat (length values) = 8 + 1 ∧
    (∃ a, angles !! 0%nat = Some a ∧ last angles = Some a) ∧
    (∃ v, values !! 0%nat = Some v ∧ last values = Some v).
Proof.
  intros σ.
  apply (closed_sequences (init 1%positive) frame4 "WS" "WD"
           [Num 1; Num 2; Num 3; Num 4]
           [Num 0; Num 90; Num 180; Num 270] 8 σ).
  - reflexivity.
  - repeat split; [reflexivity..|discriminate].
  - discriminate.
  - lia.
Defined.

(** C7.  Called without bin edges, [plot_wind_rose] hands [ax.bar] the
    speed bin edges 0, 1, 2, 3, 5, 10, 15, 20, whatever the dataset and the
    state it is called in: the call of [ax.bar] comes right after the axes
    are created, and is either the last plotting call (when [ax.bar]
    raises) or followed by the legend, the title and [plt.show]. *)
Theorem default_speed_bins (cm : string → result colormap)
    (bar : column → column → bool → list Q → colormap → result unit)
    (self : WindAnalysis) (df : DataFrame) (ws wd : string)
    (cs cd : column) (cmap : cmap_arg) (c : colormap) (σ : state) :
  heap σ !! data self = Some df →
  df_getitem df ws = Ok cs →
  df_getitem df wd = Ok cd →
  ws ≠ wd →
  match cmap with CmapStr name => cm name | CmapObj c => Ok c end = Ok c →
  ∃ (direction var : column) (rest : list event),
    calls (plot_wind_rose cm bar self ws wd None cmap σ).2
    = calls σ ++
      [WindroseAxes_from_ax;
       ax_bar direction var true [0; 1; 2; 3; 5; 10; 15; 20]%Q c] ++ rest ∧
    (rest = [] ∨ rest = [ax_set_legend; plt_title "Wind Rose" 16; plt_show]).
Proof.
  intros Hdf Hs Hd Hne Hc.
  destruct (plot_wind_rose_run cm bar self df ws wd None cmap σ Hdf)
    as (h' & _ & ->).
  unfold df_getitem_list. simpl.
  rewrite (df_getitem_columns_named _ _ _ Hs),
    (df_getitem_columns_named _ _ _ Hd). simpl.
  unfold wind_rose_chart. rewrite Hc.
  unfold dropna. simpl. unfold df_getitem, columns_named.
  columns_by_name.
  destruct (bar _ _ true default_bins c) as [e|[]]; simpl.
  - eexists _, _, []. split; [reflexivity|by left].
  - eexists _, _, _. split; [reflexivity|by right].
Qed.

Lemma default_speed_bins_witness :
  let cm := λ name, Ok (Colormap name) in
  let bar := λ (_ _ : column) (_ : bool) (_ : list Q) (_ : colormap), Ok tt in
  let σ := State {[ 1%positive := frame4 ]} [] in
  ∃ (direction var : column) (rest : list event),
    calls (plot_wind_rose cm bar (init 1%positive) "WS" "WD" None
             (CmapStr "coolwarm") σ).2
    = calls σ ++
      [WindroseAxes_from_ax;
       ax_bar direction var true [0; 1; 2; 3; 5; 10; 15; 20]%Q
              (Colormap "coolwarm")] ++ rest ∧
    (rest = [] ∨ rest = [ax_set_legend; plt_title "Wind Rose" 16; plt_show]).
Proof.
  intros cm bar σ.
  apply (default_speed_bins cm bar (init 1%positive) frame4 "WS" "WD"
           (NumCol [Num 1; Num 2; Num 3; Num 4])
           (NumCol [Num 0; Num 90; Num 180; Num 270])
           (CmapStr "coolwarm") (Colormap "coolwarm") σ).
  - reflexivity.
  - reflexivity.
  - reflexivity.
  - discriminate.
  - reflexivity.
Defined.

(** C8.  Neither method changes the dataset held by the object, nor any
    other frame that exists when it is called: after either call every
    frame of the heap, the one at [data self] among them, is what it was.
    The column "sector" is assigned to an object made by the call. *)
Theorem source_dataset_unchanged (cm : string → result colormap)
    (bar : column → column → bool → list Q → colormap → result unit)
    (self : WindAnalysis) (ws wd : string) (n : Z)
    (bins : option (list Q)) (cmap : cmap_arg) (σ : state)
    (l : loc) (df : DataFrame) :
  heap σ !! l = Some df →
  heap (plot_radial_bar self ws wd n σ).2 !! l = Some df ∧
  heap (plot_wind_rose cm bar self ws wd bins cmap σ).2 !! l = Some df.
Proof.
  intros Hl. destruct (heap σ !! data self) as [df0|] eqn:Hdf.
  - destruct (plot_radial_bar_run self df0 ws wd n σ Hdf) as (h1 & Hh1 & ->).
    destruct (plot_wind_rose_run cm bar self df0 ws wd bins cmap σ Hdf)
      as (h2 & Hh2 & ->).
    simpl. split; eapply lookup_weaken; done.
  - unfold plot_radial_bar, plot_wind_rose, frame_getitem_list.
    rewrite !bind_run. unfold read_frame. rewrite Hdf. simpl. done.
Qed.

Lemma source_dataset_unchanged_witness :
  let cm := λ name, Ok (Colormap name) in
  let bar := λ (_ _ : column) (_ : bool) (_ : list Q) (_ : colormap), Ok tt in
  let self := init 1%positive in
  let σ := State {[ 1%positive := frame4 ]} [] in
  heap (plot_radial_bar self "WS" "WD" 4 σ).2 !! 1%positive = Some frame4 ∧
  heap (plot_wind_rose cm bar self "WS" "WD" None (CmapStr "coolwarm") σ).2
    !! 1%positive = Some frame4.
Proof.
  intros cm bar self σ.
  apply (source_dataset_unchanged cm bar self "WS" "WD" 4 None
           (CmapStr "coolwarm") σ 1%positive frame4).
  reflexivity.
Defined.

(** C9.  For the dataset of four rows with the directions 0, 90, 180, 270
    and the speeds 1, 2, 3, 4, [plot_radial_bar] with four sectors computes
    the sector means 1, 2, 3, 4 for the sectors labelled "0-90", "90-180",
    "180-270", "270-360": these are the values it fills the chart with,
    followed by the first again, and the tick labels it sets. *)
Theorem four_rows_four_sectors (self : WindAnalysis) (σ : state) :
  heap σ !! data self = Some frame4 →
  ∃ (h' : gmap loc DataFrame) (angles : list Q) (a0 : Q),
    plot_radial_bar self "WS" "WD" 4 σ
    = (Ok tt,
       State h' (calls σ ++
                 [plt_subplots_polar (8, 8);
                  ax_fill (angles ++ [a0])
                          [Num 1; Num 2; Num 3; Num 4; Num 1] "blue" (1 # 2);
                  ax_set_xticks angles;
                  ax_set_xticklabels
                    [LStr "0-90"; LStr "90-180"; LStr "180-270";
                     LStr "270-360"] 10;
                  ax_set_title "Radial Bar Plot of Wind Speed by Direction"
                               16;
                  plt_show])).
Proof.
  intros Hdf.
  destruct (plot_radial_bar_spec self frame4 "WS" "WD"
              [Num 1; Num 2; Num 3; Num 4]
              [Num 0; Num 90; Num 180; Num 270] 4 σ)
    as (h' & edges & angles & a0 & _ & Hlin & _ & _ & _ & ->);
    [done| |done|lia|].
  { repeat split; done. }
  vm_compute in Hlin. injection Hlin as <-.
  exists h', angles, a0. by vm_compute.
Qed.

Lemma four_rows_four_sectors_witness :
  let σ := State {[ 1%positive := frame4 ]} [] in
  ∃ (h' : gmap loc DataFrame) (angles : list Q) (a0 : Q),
    plot_radial_bar (init 1%positive) "WS" "WD" 4 σ
    = (Ok tt,
       State h' (calls σ ++
                 [plt_subplots_polar (8, 8);
                  ax_fill (angles ++ [a0])
                          [Num 1; Num 2; Num 3; Num 4; Num 1] "blue" (1 # 2);
                  ax_set_xticks angles;
                  ax_set_xticklabels
                    [LStr "0-90"; LStr "90-180"; LStr "180-270";
                     LStr "270-360"] 10;
                  ax_set_title "Radial Bar Plot of Wind Speed by Direction"
                               16;
                  plt_show])).
Proof.
  intros σ. apply (four_rows_four_sectors (init 1%positive) σ). reflexivity.
Defined.

(** C10.  In [plot_radial_bar] the per-sector averages have exactly
    [num_bins] entries, one per sector label of the binning step and in the
    order of these labels, whatever the data: a sector whose code the
    binning step gives to no row is present, with the mean [NaN].  So the
    first value exists when the sequence is closed, and the values stand at
    the [num_bins] angles, under the tick labels of their sectors. *)
Theorem sector_average_covers_all_sectors (self : WindAnalysis)
    (df : DataFrame) (ws wd : string) (speeds dirs : list cell) (n : Z)
    (σ : state) :
  heap σ !! data self = Some df →
  wind_columns df ws wd speeds dirs →
  ws ≠ "sector" →
  0 < n <= 720 →
  ∃ (h' : gmap loc DataFrame) (edges : list Q) (labels : list string)
    (angles : list Q) (a0 : Q) (sector_avg : Series) (v0 : cell),
    np_linspace 0 360 (n + 1) true = Ok edges ∧
    sector_labels edges n = Ok labels ∧
    Z.of_nat (length sector_avg) = n ∧
    Z.of_nat (length angles) = n ∧
    series_index sector_avg = LStr <$> labels ∧
    (∀ k, (k < Z.to_nat n)%nat →
          (∀ s d, (s, d) ∈ observations speeds dirs →
                  cut_code edges false (Num d) ≠ Some k) →
          series_values sector_avg !! k = Some NaN) ∧
    series_values sector_avg !! 0%nat = Some v0 ∧
    plot_radial_bar self ws wd n σ
    = (Ok tt,
       State h' (calls σ ++
                 chart_calls (angles ++ [a0])
                             (series_values sector_avg ++ [v0])
                             angles (series_index sector_avg))).
Proof.
  intros Hdf Hcols Hws Hn.
  destruct (linspace_edges n Hn)
    as (edges & Hlin & Hlen' & _ & _ & _ & Hinc & _).
  destruct (plot_radial_bar_spec self df ws wd speeds dirs n σ)
    as (h' & edges' & angles & a0 & _ & Hlin' & _ & Hlen & Ha0 & ->);
    [done..|].
  assert (edges' = edges) as -> by congruence.
  set (obs := observations speeds dirs).
  exists h', edges, (bin_label edges <$> seq 0 (Z.to_nat n)), angles, a0,
    ((λ k, (LStr (bin_label edges k), bin_mean edges k obs))
       <$> seq 0 (Z.to_nat n)),
    (bin_mean edges 0 obs).
  rewrite length_fmap, length_seq, Hlen.
  split; [done|]. split; [by apply sector_labels_edges|].
  split; [lia|]. split; [lia|].
  split; [unfold series_index; by rewrite <-!list_fmap_compose|].
  split.
  { intros k Hk Hnone. unfold series_values.
    rewrite <-list_fmap_compose, list_lookup_fmap, lookup_seq_lt by done.
    simpl. f_equal. apply bin_mean_none. intros s d Hin Hbin.
    apply (Hnone s d Hin). apply cut_code_in_bin; [done|lia|done]. }
  split.
  { unfold series_values.
    by rewrite <-list_fmap_compose, list_lookup_fmap, lookup_seq_lt by lia. }
  unfold radial_calls, series_values, series_index, bin_means, bin_ticks.
  by rewrite <-!list_fmap_compose.
Qed.

Lemma sector_average_covers_all_sectors_witness :
  let σ := State {[ 1%positive := frame4 ]} [] in
  ∃ (h' : gmap loc DataFrame) (edges : list Q) (labels : list string)
    (angles : list Q) (a0 : Q) (sector_avg : Series) (v0 : cell),
    np_linspace 0 360 (8 + 1) true = Ok edges ∧
    sector_labels edges 8 = Ok labels ∧
    Z.of_nat (length sector_avg) = 8 ∧
    Z.of_nat (length angles) = 8 ∧
    series_index sector_avg = LStr <$> labels ∧
    (∀ k, (k < Z.to_nat 8)%nat →
          (∀ s d, (s, d) ∈ observations [Num 1; Num 2; Num 3; Num 4]
                                        [Num 0; Num 90; Num 180; Num 270] →
                  cut_code edges false (Num d) ≠ Some k) →
          series_values sector_avg !! k = Some NaN) ∧
    series_values sector_avg !! 0%nat = Some v0 ∧
    plot_radial_bar (init 1%positive) "WS" "WD" 8 σ
    = (Ok tt,
       State h' (calls σ ++
                 chart_calls (angles ++ [a0])
                             (series_values sector_avg ++ [v0])
                             angles (series_index sector_avg))).
Proof.
  intros σ.
  apply (sector_average_covers_all_sectors (init 1%positive) frame4
           "WS" "WD" [Num 1; Num 2; Num 3; Num 4]
           [Num 0; Num 90; Num 180; Num 270] 8 σ).
  - reflexivity.
  - repeat split; [reflexivity..|discriminate].
  - discriminate.
  - lia.
Defined.

(** * Further properties of the two methods *)

(** ** Failing calls *)

Lemma plot_radial_bar_dangling (self : WindAnalysis) (ws wd : string) (n : Z)
    (σ : state) :
  heap σ !! data self = None →
  plot_radial_bar self ws wd n σ = (Raise SystemError, σ).
Proof.
  intros Hnone. unfold plot_radial_bar, frame_getitem_list.
  rewrite !bind_run. unfold read_frame. by rewrite Hnone.
Qed.

Lemma linspace_no_angle (stop : Q) (n : Z) :
  n <= 0 →
  ∃ e, (angles ← np_linspace 0 stop n false; getitem angles 0)
       = Raise e.
Proof.
  intros Hn. unfold np_linspace.
  destruct (Z.ltb_spec n 0) as [?|?]; [by eexists|].
  assert (n = 0) as -> by lia. by eexists.
Qed.

Lemma radial_chart_nonpositive (wind_data : DataFrame) (ws wd : string)
    (n : Z) :
  n <= 0 → ∃ e, radial_chart wind_data ws wd n = Raise e.
Proof.
  intros Hn. unfold radial_chart.
  destruct (np_linspace 0 360 (n + 1) true) as [e|bin_edges];
    [by eexists|]. rewrite result_bind_Ok.
  destruct (df_getitem wind_data wd) as [e|direction];
    [by eexists|]. rewrite result_bind_Ok.
  destruct (sector_labels bin_edges n) as [e|labels];
    [by eexists|]. rewrite result_bind_Ok.
  destruct (pd_cut direction bin_edges labels false) as [e|sector];
    [by eexists|]. rewrite result_bind_Ok.
  destruct (groupby_mean _ "sector" ws) as [e|sector_avg];
    [by eexists|]. rewrite result_bind_Ok.
  destruct (linspace_no_angle (2 * np_pi) n Hn) as [e He].
  destruct (np_linspace 0 (2 * np_pi) n false) as [e'|angles];
    [by eexists|].
  change (getitem angles 0 = Raise e) in He.
  rewrite result_bind_Ok, He. by eexists.
Qed.

(** X1.  With [num_bins <= 0] a call of [plot_radial_bar] raises, whatever
    the dataset, and makes no plotting call: there is no first angle to
    close the chart with, or numpy or pandas reject the bin edges before. *)
Theorem nonpositive_bins_raise (self : WindAnalysis) (ws wd : string)
    (n : Z) (σ : state) :
  n <= 0 →
  (∃ e, (plot_radial_bar self ws wd n σ).1 = Raise e) ∧
  calls (plot_radial_bar self ws wd n σ).2 = calls σ.
Proof.
  intros Hn. destruct (heap σ !! data self) as [df|] eqn:Hdf.
  - destruct (plot_radial_bar_run self df ws wd n σ Hdf) as (h' & _ & ->).
    simpl. destruct (df_getitem_list df [ws; wd]) as [e|sel].
    + rewrite result_bind_Raise, app_nil_r. split; [by eexists|done].
    + rewrite result_bind_Ok.
      destruct (radial_chart_nonpositive (dropna sel) ws wd n Hn) as [e ->].
      rewrite app_nil_r. split; [by eexists|done].
  - rewrite plot_radial_bar_dangling by done. split; [by eexists|done].
Qed.

Lemma nonpositive_bins_raise_witness :
  let σ := State {[ 1%positive := frame4 ]} [] in
  (∃ e, (plot_radial_bar (init 1%positive) "WS" "WD" 0 σ).1 = Raise e) ∧
  calls (plot_radial_bar (init 1%positive) "WS" "WD" 0 σ).2 = calls σ.
Proof.
  intros σ. apply (nonpositive_bins_raise (init 1%positive) "WS" "WD" 0 σ).
  lia.
Defined.

(** X2.  With more than 720 sectors a call of [plot_radial_bar] on a dataset
    with numeric speed and direction columns raises [ValueError] and makes no
    plotting call: a sector is then narrower than half a degree, the first
    two labels are both "0-0", and [pd.cut] rejects labels that repeat. *)
Theorem too_many_bins_raise (self : WindAnalysis) (df : DataFrame)
    (ws wd : string) (speeds dirs : list cell) (n : Z) (σ : state) :
  heap σ !! data self = Some df →
  wind_columns df ws wd speeds dirs →
  720 < n →
  (plot_radial_bar self ws wd n σ).1 = Raise ValueError ∧
  calls (plot_radial_bar self ws wd n σ).2 = calls σ.
Proof. apply plot_radial_bar_too_many. Qed.

Lemma too_many_bins_raise_witness :
  let σ := State {[ 1%positive := frame4 ]} [] in
  (plot_radial_bar (init 1%positive) "WS" "WD" 1000 σ).1 = Raise ValueError ∧
  calls (plot_radial_bar (init 1%positive) "WS" "WD" 1000 σ).2 = calls σ.
Proof.
  intros σ.
  apply (too_many_bins_raise (init 1%positive) frame4 "WS" "WD"
           [Num 1; Num 2; Num 3; Num 4]
           [Num 0; Num 90; Num 180; Num 270] 1000 σ).
  - reflexivity.
  - repeat split; [reflexivity..|discriminate].
  - lia.
Defined.

Lemma df_getitem_list_missing (df : DataFrame) (ws wd : string) :
  columns_named ws df = [] ∨ columns_named wd df = [] →
  df_getitem_list df [ws; wd] = Raise KeyError.
Proof.
  intros Hmiss. unfold df_getitem_list. simpl.
  destruct (columns_named ws df) as [|c cs] eqn:Hs; [done|].
  destruct Hmiss as [?|Hd]; [done|]. by rewrite Hd.
Qed.

(** X3.  When the dataset has no column of the name given for the speed, or
    none of the name given for the direction, both methods raise [KeyError]
    and make no plotting call. *)
Theorem missing_column_raises_KeyError (cm : string → result colormap)
    (bar : column → column → bool → list Q → colormap → result unit)
    (self : WindAnalysis) (df : DataFrame) (ws wd : string) (n : Z)
    (bins : option (list Q)) (cmap : cmap_arg) (σ : state) :
  heap σ !! data self = Some df →
  columns_named ws df = [] ∨ columns_named wd df = [] →
  ((plot_radial_bar self ws wd n σ).1 = Raise KeyError ∧
   calls (plot_radial_bar self ws wd n σ).2 = calls σ) ∧
  ((plot_wind_rose cm bar self ws wd bins cmap σ).1 = Raise KeyError ∧
   calls (plot_wind_rose cm bar self ws wd bins cmap σ).2 = calls σ).
Proof.
  intros Hdf Hmiss.
  destruct (plot_radial_bar_run self df ws wd n σ Hdf) as (h1 & _ & ->).
  destruct (plot_wind_rose_run cm bar self df ws wd bins cmap σ Hdf)
    as (h2 & _ & ->).
  rewrite (df_getitem_list_missing df ws wd Hmiss). simpl.
  by rewrite app_nil_r.
Qed.

Lemma missing_column_raises_KeyError_witness :
  let cm := λ name, Ok (Colormap name) in
  let bar := λ (_ _ : column) (_ : bool) (_ : list Q) (_ : colormap), Ok tt in
  let σ := State {[ 1%positive := frame4 ]} [] in
  ((plot_radial_bar (init 1%positive) "WS" "Tamb" 8 σ).1 = Raise KeyError ∧
   calls (plot_radial_bar (init 1%positive) "WS" "Tamb" 8 σ).2 = calls σ) ∧
  ((plot_wind_rose cm bar (init 1%positive) "WS" "Tamb" None
      (CmapStr "coolwarm") σ).1 = Raise KeyError ∧
   calls (plot_wind_rose cm bar (init 1%positive) "WS" "Tamb" None
            (CmapStr "coolwarm") σ).2 = calls σ).
Proof.
  intros cm bar σ.
  apply (missing_column_raises_KeyError cm bar (init 1%positive) frame4
           "WS" "Tamb" 8 None (CmapStr "coolwarm") σ).
  - reflexivity.
  - right. reflexivity.
Defined.

Lemma df_getitem_list_present (df : DataFrame) (ws wd : string) :
  columns_named ws df ≠ [] → columns_named wd df ≠ [] →
  ∃ sel, df_getitem_list df [ws; wd] = Ok sel.
Proof.
  intros Hs Hd. unfold df_getitem_list. simpl.
  destruct (columns_named ws df); [done|].
  destruct (columns_named wd df); [done|]. by eexists.
Qed.

(** X4.  When the colormap is given by a name that matplotlib does not
    know, [plot_wind_rose] raises what [cm.get_cmap] raises, and it does so
    before it creates the axes: no plotting call is made. *)
Theorem unknown_colormap_raises (cm : string → result colormap)
    (bar : column → column → bool → list Q → colormap → result unit)
    (self : WindAnalysis) (df : DataFrame) (ws wd : string)
    (bins : option (list Q)) (name : string) (e : exception) (σ : state) :
  heap σ !! data self = Some df →
  columns_named ws df ≠ [] →
  columns_named wd df ≠ [] →
  cm name = Raise e →
  (plot_wind_rose cm bar self ws wd bins (CmapStr name) σ).1 = Raise e ∧
  calls (plot_wind_rose cm bar self ws wd bins (CmapStr name) σ).2 = calls σ.
Proof.
  intros Hdf Hs Hd Hcm.
  destruct (plot_wind_rose_run cm bar self df ws wd bins (CmapStr name) σ Hdf)
    as (h' & _ & ->).
  destruct (df_getitem_list_present df ws wd Hs Hd) as [sel ->].
  unfold wind_rose_chart. rewrite Hcm. simpl. by rewrite app_nil_r.
Qed.

Lemma unknown_colormap_raises_witness :
  let cm := λ name : string,
              if decide (name = "coolwarm") then Ok (Colormap name)
              else Raise ValueError in
  let bar := λ (_ _ : column) (_ : bool) (_ : list Q) (_ : colormap), Ok tt in
  let σ := State {[ 1%positive := frame4 ]} [] in
  (plot_wind_rose cm bar (init 1%positive) "WS" "WD" None
     (CmapStr "warmcool") σ).1
  = Raise ValueError ∧
  calls (plot_wind_rose cm bar (init 1%positive) "WS" "WD" None
           (CmapStr "warmcool") σ).2 = calls σ.
Proof.
  intros cm bar σ.
  apply (unknown_colormap_raises cm bar (init 1%positive) frame4 "WS" "WD"
           None "warmcool" ValueError σ).
  - reflexivity.
  - discriminate.
  - discriminate.
  - reflexivity.
Defined.

(** X5.  On a dataset with numeric speed and direction columns
    [plot_wind_rose] creates the wind-rose axes and calls [ax.bar] with the
    directions and the speeds of the rows that have both, in the order of
    the dataset, normalised, with the bin edges it was given (the default
    ones for [None]) and the resolved colormap.  When [ax.bar] raises, the
    method raises the same exception and makes no further plotting call;
    when it returns, the legend, the title "Wind Rose" and [plt.show]
    follow, in this order. *)
Theorem wind_rose_draws_complete_rows (cm : string → result colormap)
    (bar : column → column → bool → list Q → colormap → result unit)
    (self : WindAnalysis) (df : DataFrame) (ws wd : string)
    (speeds dirs : list cell) (bins : option (list Q)) (cmap : cmap_arg)
    (c : colormap) (σ : state) :
  heap σ !! data self = Some df →
  wind_columns df ws wd speeds dirs →
  match cmap with CmapStr name => cm name | CmapObj c => Ok c end = Ok c →
  let direction := NumCol ((λ o, Num o.2) <$> observations speeds dirs) in
  let var := NumCol ((λ o, Num o.1) <$> observations speeds dirs) in
  let edges := match bins with
               | None => [0; 1; 2; 3; 5; 10; 15; 20]%Q
               | Some b => b
               end in
  calls (plot_wind_rose cm bar self ws wd bins cmap σ).2
  = calls σ ++
    [WindroseAxes_from_ax; ax_bar direction var true edges c] ++
    match bar direction var true edges c with
    | Raise _ => []
    | Ok _ => [ax_set_legend; plt_title "Wind Rose" 16; plt_show]
    end ∧
  ∀ e, bar direction var true edges c = Raise e →
       (plot_wind_rose cm bar self ws wd bins cmap σ).1 = Raise e.
Proof.
  intros Hdf Hcols Hc direction var edges.
  destruct (plot_wind_rose_run cm bar self df ws wd bins cmap σ Hdf)
    as (h' & _ & ->).
  rewrite (df_getitem_list_wind df ws wd speeds dirs) by done.
  rewrite dropna_frame_of. unfold wind_rose_chart. rewrite Hc.
  destruct Hcols as (_ & _ & Hne).
  destruct (df_getitem_frame_of ws wd
              ((λ o, Num o.1) <$> observations speeds dirs)
              ((λ o, Num o.2) <$> observations speeds dirs) Hne) as [-> ->].
  unfold default_bins. fold direction var edges.
  destruct (bar direction var true edges c) as [e|[]]; simpl.
  - split; [done|]. by intros e' [= ->].
  - split; [done|]. by intros e'.
Qed.

Lemma wind_rose_draws_complete_rows_witness :
  let cm := λ name, Ok (Colormap name) in
  let bar := λ (_ var : column) (_ : bool) (_ : list Q) (_ : colormap),
               match var with
               | NumCol (_ :: _) => Ok tt
               | _ => Raise ValueError
               end in
  let df := frame_of "WS" "WD" [Num 1; NaN; Num 3] [Num 0; Num 45; Num 90] in
  let σ := State {[ 1%positive := df ]} [] in
  let direction := NumCol ((λ o, Num o.2) <$>
                             observations [Num 1; NaN; Num 3]
                                          [Num 0; Num 45; Num 90]) in
  let var := NumCol ((λ o, Num o.1) <$>
                       observations [Num 1; NaN; Num 3]
                                    [Num 0; Num 45; Num 90]) in
  let edges := [0; 2; 4]%Q in
  calls (plot_wind_rose cm bar (init 1%positive) "WS" "WD"
           (Some [0; 2; 4]%Q) (CmapStr "viridis") σ).2
  = calls σ ++
    [WindroseAxes_from_ax;
     ax_bar direction var true edges (Colormap "viridis")] ++
    match bar direction var true edges (Colormap "viridis") with
    | Raise _ => []
    | Ok _ => [ax_set_legend; plt_title "Wind Rose" 16; plt_show]
    end ∧
  ∀ e, bar direction var true edges (Colormap "viridis") = Raise e →
       (plot_wind_rose cm bar (init 1%positive) "WS" "WD"
          (Some [0; 2; 4]%Q) (CmapStr "viridis") σ).1 = Raise e.
Proof.
  intros cm bar df σ.
  apply (wind_rose_draws_complete_rows cm bar (init 1%positive) df "WS" "WD"
           [Num 1; NaN; Num 3] [Num 0; Num 45; Num 90] (Some [0; 2; 4]%Q)
           (CmapStr "viridis") (Colormap "viridis") σ).
  - reflexivity.
  - repeat split; [reflexivity..|discriminate].
  - reflexivity.
Defined.

(** ** Angles, boundaries and labels *)

Lemma fsub_2pi : (fsub (2 * np_pi) 0 == 2 * np_pi)%Q.
Proof. by vm_compute. Qed.

Lemma angle_value_close (n k : Z) :
  0 < n <= 720 → 0 <= k <= n →
  Qeq_bool (fdiv (fsub (2 * np_pi) 0) (inject_Z n)) 0 = false ∧
  (Qabs (linspace_value (2 * np_pi) n k
         - 2 * np_pi * inject_Z k / inject_Z n) <= angle_tolerance)%Q.
Proof.
  intros Hn Hk.
  destruct (linspace_value_close (2 * np_pi) 3 n k)
    as (Hstep & H0 & Hlo & Hhi); [lia|apply fsub_2pi|done|done|lia..|].
  change (Z.to_pos (2 ^ (53 - 3))) with 1125899906842624%positive in *.
  split; [done|]. unfold angle_tolerance.
  apply Qabs_Qle_condition. split; lra.
Qed.

Lemma linspace_angles (n : Z) :
  0 < n <= 720 →
  np_linspace 0 (2 * np_pi) n false
  = Ok (linspace_value (2 * np_pi) n <$> seqZ 0 n).
Proof.
  intros Hn.
  pose proof (linspace_values (2 * np_pi) n false) as Hlin.
  cbv zeta in Hlin. cbn [andb] in Hlin.
  apply Hlin; [lia..|]. by apply (angle_value_close n 0); lia.
Qed.

Lemma angle_gap (n : Z) (i j : nat) :
  0 < n <= 720 → (i < j)%nat →
  (2 * np_pi * inject_Z (Z.of_nat i) / inject_Z n + (1 # 128)
   <= 2 * np_pi * inject_Z (Z.of_nat j) / inject_Z n)%Q.
Proof.
  intros [Hn Hle] Hij.
  assert (2 * np_pi * inject_Z (Z.of_nat j) / inject_Z n
          - 2 * np_pi * inject_Z (Z.of_nat i) / inject_Z n
          == (inject_Z (Z.of_nat j) - inject_Z (Z.of_nat i))
             * (2 * np_pi / inject_Z n))%Q as Hd.
  { field. by apply inject_Z_pos_neq_0. }
  assert (1 # 128 <= 2 * np_pi / inject_Z n)%Q as Hw.
  { apply Qle_shift_div_l.
    - change 0%Q with (inject_Z 0). rewrite <-Zlt_Qlt. lia.
    - unfold Qle. simpl. lia. }
  assert (1 <= inject_Z (Z.of_nat j) - inject_Z (Z.of_nat i))%Q as Hji.
  { unfold Qle, Qminus, Qplus. simpl. lia. }
  set (w := (2 * np_pi / inject_Z n)%Q) in *.
  set (J := inject_Z (Z.of_nat j)) in *. set (I := inject_Z (Z.of_nat i)) in *.
  set (Aj := (2 * np_pi * J / inject_Z n)%Q) in *.
  set (Ai := (2 * np_pi * I / inject_Z n)%Q) in *.
  nra.
Qed.

(** X6.  The ticks of the radial chart stand at [num_bins] angles that are
    evenly spaced up to rounding: they are in increasing order, the first is
    0, tick [k] is within [2^-40] of [2 * pi * k / num_bins] (with numpy's
    [pi]) and below the full turn; the filled outline goes through these
    angles and back to the angle 0. *)
Theorem tick_angles_evenly_spaced (self : WindAnalysis) (df : DataFrame)
    (ws wd : string) (speeds dirs : list cell) (n : Z) (σ : state) :
  heap σ !! data self = Some df →
  wind_columns df ws wd speeds dirs →
  ws ≠ "sector" →
  0 < n <= 720 →
  ∃ (h' : gmap loc DataFrame) (angles : list Q) (a0 : Q)
    (values : list cell) (labels : list index_label),
    plot_radial_bar self ws wd n σ
    = (Ok tt,
       State h' (calls σ ++
                 chart_calls (angles ++ [a0]) values angles labels)) ∧
    Z.of_nat (length angles) = n ∧
    a0 = 0%Q ∧
    increasing angles ∧
    (∀ k, (k < Z.to_nat n)%nat →
          ∃ a, angles !! k = Some a ∧
               (a < 2 * np_pi)%Q ∧
               (Qabs (a - 2 * np_pi * inject_Z (Z.of_nat k) / inject_Z n)
                <= angle_tolerance)%Q).
Proof.
  intros Hdf Hcols Hws Hn.
  destruct (plot_radial_bar_spec self df ws wd speeds dirs n σ)
    as (h' & edges & angles & a0 & _ & _ & Hang & Hlen & Ha0 & ->); [done..|].
  rewrite linspace_angles in Hang by done. injection Hang as <-.
  assert (∀ k, (k < Z.to_nat n)%nat →
               (linspace_value (2 * np_pi) n <$> seqZ 0 n) !! k
               = Some (linspace_value (2 * np_pi) n (Z.of_nat k))) as Hk.
  { intros k Hk. by rewrite list_lookup_fmap, lookup_seqZ_lt by lia. }
  assert (∀ k, (k < Z.to_nat n)%nat →
               (Qabs (linspace_value (2 * np_pi) n (Z.of_nat k)
                      - 2 * np_pi * inject_Z (Z.of_nat k) / inject_Z n)
                <= angle_tolerance)%Q) as Hclose.
  { intros k Hkn. by apply angle_value_close; lia. }
  eexists h', _, a0, _, _. split; [reflexivity|].
  split; [lia|]. split.
  { rewrite Hk in Ha0 by lia. by injection Ha0 as <-. }
  split.
  { intros i j x y Hi Hj Hij.
    pose proof (lookup_lt_Some _ _ _ Hj) as Hjn. rewrite Hlen in Hjn.
    rewrite Hk in Hi, Hj by lia. injection Hi as <-. injection Hj as <-.
    pose proof (Hclose i ltac:(lia)) as Hci.
    pose proof (Hclose j ltac:(lia)) as Hcj.
    apply Qabs_Qle_condition in Hci, Hcj.
    pose proof (angle_gap n i j Hn Hij). unfold angle_tolerance in *. lra. }
  intros k Hkn. eexists. split; [by apply Hk|]. split; [|by apply Hclose].
  pose proof (Hclose k Hkn) as Hck. apply Qabs_Qle_condition in Hck.
  pose proof (angle_gap n k (Z.to_nat n) Hn Hkn) as Hgap.
  assert (2 * np_pi * inject_Z (Z.of_nat (Z.to_nat n)) / inject_Z n
          == 2 * np_pi)%Q as Hfull.
  { rewrite Z2Nat.id by lia. field. apply inject_Z_pos_neq_0. lia. }
  unfold angle_tolerance in *. lra.
Qed.

Lemma tick_angles_evenly_spaced_witness :
  let σ := State {[ 1%positive := frame4 ]} [] in
  ∃ (h' : gmap loc DataFrame) (angles : list Q) (a0 : Q)
    (values : list cell) (labels : list index_label),
    plot_radial_bar (init 1%positive) "WS" "WD" 8 σ
    = (Ok tt,
       State h' (calls σ ++
                 chart_calls (angles ++ [a0]) values angles labels)) ∧
    Z.of_nat (length angles) = 8 ∧
    a0 = 0%Q ∧
    increasing angles ∧
    (∀ k, (k < Z.to_nat 8)%nat →
          ∃ a, angles !! k = Some a ∧
               (a < 2 * np_pi)%Q ∧
               (Qabs (a - 2 * np_pi * inject_Z (Z.of_nat k) / inject_Z 8)
                <= angle_tolerance)%Q).
Proof.
  intros σ.
  apply (tick_angles_evenly_spaced (init 1%positive) frame4 "WS" "WD"
           [Num 1; Num 2; Num 3; Num 4]
           [Num 0; Num 90; Num 180; Num 270] 8 σ).
  - reflexivity.
  - repeat split; [reflexivity..|discriminate].
  - discriminate.
  - lia.
Defined.

(** X7.  The radial chart leaves out every row whose direction is outside
    [[0, 360)]: a negative direction, or one of 360 or more, lies in no
    sector, and the call on a dataset with such a row added gives the same
    result and plotting calls as without it. *)
Theorem out_of_range_directions_left_out (self : WindAnalysis)
    (df df' : DataFrame) (ws wd : string) (s1 s2 d1 d2 : list cell)
    (x : cell) (q : Q) (n : Z) (σ σ' : state) :
  heap σ !! data self = Some df →
  heap σ' !! data self = Some df' →
  calls σ = calls σ' →
  wind_columns df ws wd (s1 ++ s2) (d1 ++ d2) →
  wind_columns df' ws wd (s1 ++ x :: s2) (d1 ++ Num q :: d2) →
  length s1 = length d1 →
  (q < 0)%Q ∨ (360 <= q)%Q →
  ws ≠ "sector" →
  0 < n <= 720 →
  (∀ k, (k < Z.to_nat n)%nat → ¬ in_sector n k q) ∧
  (plot_radial_bar self ws wd n σ').1 = (plot_radial_bar self ws wd n σ).1 ∧
  calls (plot_radial_bar self ws wd n σ').2
  = calls (plot_radial_bar self ws wd n σ).2.
Proof.
  intros Hdf Hdf' Hcalls Hcols Hcols' Hlen Hq Hws Hn.
  split; [intros k Hk; apply sector_outside_none; [lia|done..]|].
  destruct (linspace_edges n Hn)
    as (edges & Hlin & Hlen' & He0 & Hen & _ & Hinc & _).
  destruct (plot_radial_bar_spec self df ws wd _ _ n σ Hdf Hcols Hws Hn)
    as (h1 & e1 & angles & a0 & _ & Hlin1 & Hang & _ & Ha0 & ->).
  destruct (plot_radial_bar_spec self df' ws wd _ _ n σ' Hdf' Hcols' Hws Hn)
    as (h2 & e2 & angles' & a0' & _ & Hlin2 & Hang' & _ & Ha0' & ->).
  assert (e1 = edges) as -> by congruence.
  assert (e2 = edges) as -> by congruence.
  assert (angles' = angles) as -> by congruence.
  assert (a0' = a0) as -> by congruence.
  simpl. split; [done|]. rewrite Hcalls. f_equal.
  rewrite !observations_app by done.
  destruct x as [|s]; simpl; [done|].
  apply radial_calls_skip; [lia|]. intros k Hk.
  by apply (bin_outside_none n).
Qed.

Lemma out_of_range_directions_left_out_witness :
  let self := init 1%positive in
  let σ := State {[ 1%positive :=
                      frame_of "WS" "WD" [Num 1; Num 2] [Num 0; Num 90] ]} [] in
  let σ' := State {[ 1%positive :=
                       frame_of "WS" "WD" [Num 1; Num 7; Num 2]
                                          [Num 0; Num (-5); Num 90] ]} [] in
  (∀ k, (k < Z.to_nat 8)%nat → ¬ in_sector 8 k (-5)) ∧
  (plot_radial_bar self "WS" "WD" 8 σ').1
  = (plot_radial_bar self "WS" "WD" 8 σ).1 ∧
  calls (plot_radial_bar self "WS" "WD" 8 σ').2
  = calls (plot_radial_bar self "WS" "WD" 8 σ).2.
Proof.
  intros self σ σ'.
  apply (out_of_range_directions_left_out self
           (frame_of "WS" "WD" [Num 1; Num 2] [Num 0; Num 90])
           (frame_of "WS" "WD" [Num 1; Num 7; Num 2] [Num 0; Num (-5); Num 90])
           "WS" "WD" [Num 1] [Num 2] [Num 0] [Num 90] (Num 7) (-5) 8 σ σ').
  - reflexivity.
  - reflexivity.
  - reflexivity.
  - repeat split; [reflexivity..|discriminate].
  - repeat split; [reflexivity..|discriminate].
  - reflexivity.
  - left. reflexivity.
  - discriminate.
  - lia.
Defined.

(** X8.  A direction that is exactly the lower boundary of a sector is
    counted in that sector, not in the one before: for a dataset of one row
    whose direction is the [k]-th bin edge the code computes, the chart is
    filled with a number at position [k] and with [NaN] at the position of
    every other sector. *)
Theorem boundary_direction_in_upper_sector (self : WindAnalysis)
    (df : DataFrame) (ws wd : string) (s d : Q) (n : Z) (k : nat)
    (edges : list Q) (σ : state) :
  heap σ !! data self = Some df →
  wind_columns df ws wd [Num s] [Num d] →
  ws ≠ "sector" →
  0 < n <= 720 →
  (k < Z.to_nat n)%nat →
  np_linspace 0 360 (n + 1) true = Ok edges →
  (d == edge_at edges k)%Q →
  ∃ (h' : gmap loc DataFrame) (angles : list Q) (values : list cell)
    (ticks : list Q) (labels : list index_label),
    plot_radial_bar self ws wd n σ
    = (Ok tt, State h' (calls σ ++ chart_calls angles values ticks labels)) ∧
    (∃ m, values !! k = Some (Num m)) ∧
    ∀ j, (j < Z.to_nat n)%nat → j ≠ k → values !! j = Some NaN.
Proof.
  intros Hdf Hcols Hws Hn Hk Hlin Hd.
  destruct (linspace_edges n Hn)
    as (edges0 & Hlin0 & Hlen & He0 & _ & Hclose & Hinc & _).
  assert (edges0 = edges) as -> by congruence.
  destruct (plot_radial_bar_spec self df ws wd [Num s] [Num d] n σ)
    as (h' & edges' & angles & a0 & _ & Hlin' & _ & _ & _ & ->); [done..|].
  assert (edges' = edges) as -> by congruence.
  assert (in_bin edges k d) as Hin.
  { split; [rewrite Hd; lra|]. rewrite Hd.
    apply (Hinc k (S k)); [by apply lookup_edge_at; lia..|lia]. }
  assert (0 <= d)%Q as Hd0 by (rewrite Hd; apply Hclose; lia).
  eexists h', _, _, _, _. split; [reflexivity|]. split.
  - rewrite lookup_app_l by (by rewrite bin_means_length).
    rewrite bin_means_lookup by done.
    destruct (bin_mean_one edges k [] [] s d Hin) as [m Hm].
    { intros s' d' H'. by apply elem_of_nil in H'. }
    exists m. by rewrite <-Hm.
  - intros j Hj Hjk.
    rewrite lookup_app_l by (by rewrite bin_means_length).
    rewrite bin_means_lookup by done. f_equal.
    apply bin_mean_none. intros s' d' H' Hin'.
    apply list_elem_of_singleton in H'. injection H' as -> ->.
    apply Hjk. by apply (bin_unique edges j k d).
Qed.

Lemma boundary_direction_in_upper_sector_witness :
  let σ := State {[ 1%positive := frame_of "WS" "WD" [Num 6] [Num 45] ]} [] in
  ∃ (h' : gmap loc DataFrame) (angles : list Q) (values : list cell)
    (ticks : list Q) (labels : list index_label),
    plot_radial_bar (init 1%positive) "WS" "WD" 8 σ
    = (Ok tt, State h' (calls σ ++ chart_calls angles values ticks labels)) ∧
    (∃ m, values !! 1%nat = Some (Num m)) ∧
    ∀ j, (j < Z.to_nat 8)%nat → j ≠ 1%nat → values !! j = Some NaN.
Proof.
  intros σ.
  apply (boundary_direction_in_upper_sector (init 1%positive)
           (frame_of "WS" "WD" [Num 6] [Num 45]) "WS" "WD" 6 45 8 1
           [0; 45; 90; 135; 180; 225; 270; 315; 360]%Q σ).
  - reflexivity.
  - repeat split; [reflexivity..|discriminate].
  - discriminate.
  - lia.
  - simpl. lia.
  - vm_compute. reflexivity.
  - reflexivity.
Defined.

Lemma int_of_float_Z (q : Q) (z : Z) :
  0 <= z → (q == inject_Z z)%Q → int_of_float q = z.
Proof.
  intros Hz Hq. rewrite int_of_float_floor.
  - by rewrite Hq, Qfloor_Z.
  - rewrite Hq. change 0%Q with (inject_Z 0). by rewrite <-Zle_Qle.
Qed.

(** X9.  When [num_bins] divides 360 the tick labels of the radial chart
    show the exact sector boundaries: with sectors [w = 360 / num_bins]
    degrees wide, label [k] is "<w*k>-<w*(k+1)>". *)
Theorem labels_exact_when_bins_divide_360 (self : WindAnalysis)
    (df : DataFrame) (ws wd : string) (speeds dirs : list cell) (n w : Z)
    (σ : state) :
  heap σ !! data self = Some df →
  wind_columns df ws wd speeds dirs →
  ws ≠ "sector" →
  0 < n →
  360 = w * n →
  ∃ (h' : gmap loc DataFrame) (angles : list Q) (values : list cell)
    (ticks : list Q),
    plot_radial_bar self ws wd n σ
    = (Ok tt,
       State h'
         (calls σ ++
          chart_calls angles values ticks
            ((λ k : nat,
                LStr (pretty (w * Z.of_nat k) +:+ "-" +:+
                      pretty (w * (Z.of_nat k + 1))))
               <$> seq 0 (Z.to_nat n)))).
Proof.
  intros Hdf Hcols Hws Hn Hw.
  assert (0 < w) as Hwpos.
  { destruct (Z.lt_trichotomy w 0) as [?|[->|?]]; [|lia|done].
    assert (w * n < 0) by (apply Z.mul_neg_pos; lia). lia. }
  assert (n <= 720) by nia.
  destruct (plot_radial_bar_spec self df ws wd speeds dirs n σ)
    as (h' & edges & angles & a0 & _ & Hlin & _ & _ & _ & ->); [done..|].
  destruct (linspace_length 0 360 (n + 1) true) as (edges' & Hlin' & Hlen);
    [lia|].
  assert (edges' = edges) as -> by congruence.
  eexists h', _, _, _. unfold radial_calls, bin_ticks.
  assert ((λ k : nat, LStr (bin_label edges k)) <$> seq 0 (Z.to_nat n)
          = (λ k : nat,
               LStr (pretty (w * Z.of_nat k) +:+ "-" +:+
                     pretty (w * (Z.of_nat k + 1))))
              <$> seq 0 (Z.to_nat n)) as ->; [|reflexivity].
  apply list_fmap_ext. intros i k Hk. apply lookup_seq in Hk as [-> Hk].
  unfold bin_label, sector_label. cbn [Nat.add].
  rewrite (int_of_float_Z (edge_at edges i) (w * Z.of_nat i)),
    (int_of_float_Z (edge_at edges (S i)) (w * (Z.of_nat i + 1))); [done|..].
  - lia.
  - rewrite (edges_exact n w edges (S i)) by (done || lia).
    by replace (Z.of_nat (S i)) with (Z.of_nat i + 1) by lia.
  - lia.
  - apply (edges_exact n w); [done..|lia].
Qed.

Lemma labels_exact_when_bins_divide_360_witness :
  let σ := State {[ 1%positive := frame4 ]} [] in
  ∃ (h' : gmap loc DataFrame) (angles : list Q) (values : list cell)
    (ticks : list Q),
    plot_radial_bar (init 1%positive) "WS" "WD" 12 σ
    = (Ok tt,
       State h'
         (calls σ ++
          chart_calls angles values ticks
            ((λ k : nat,
                LStr (pretty (30 * Z.of_nat k) +:+ "-" +:+
                      pretty (30 * (Z.of_nat k + 1))))
               <$> seq 0 (Z.to_nat 12)))).
Proof.
  intros σ.
  apply (labels_exact_when_bins_divide_360 (init 1%positive) frame4
           "WS" "WD" [Num 1; Num 2; Num 3; Num 4]
           [Num 0; Num 90; Num 180; Num 270] 12 30 σ).
  - reflexivity.
  - repeat split; [reflexivity..|discriminate].
  - discriminate.
  - lia.
  - reflexivity.
Defined.

(** ** Calls in sequence *)

Lemma plot_wind_rose_dangling (cm : string → result colormap)
    (bar : column → column → bool → list Q → colormap → result unit)
    (self : WindAnalysis) (ws wd : string) (bins : option (list Q))
    (cmap : cmap_arg) (σ : state) :
  heap σ !! data self = None →
  plot_wind_rose cm bar self ws wd bins cmap σ = (Raise SystemError, σ).
Proof.
  intros Hnone. unfold plot_wind_rose, frame_getitem_list.
  rewrite !bind_run. unfold read_frame. by rewrite Hnone.
Qed.

(** What [plot_radial_bar] returns and draws depends on the state only
    through the frame of the object. *)
Lemma plot_radial_bar_later (self : WindAnalysis) (df : DataFrame)
    (ws wd : string) (n : Z) (σ σ1 : state) :
  heap σ !! data self = Some df →
  heap σ ⊆ heap σ1 →
  ∃ evs,
    calls (plot_radial_bar self ws wd n σ).2 = calls σ ++ evs ∧
    calls (plot_radial_bar self ws wd n σ1).2 = calls σ1 ++ evs ∧
    (plot_radial_bar self ws wd n σ1).1 = (plot_radial_bar self ws wd n σ).1 ∧
    ((∃ e, (plot_radial_bar self ws wd n σ).1 = Raise e) → evs = []).
Proof.
  intros Hdf Hsub.
  assert (heap σ1 !! data self = Some df) as Hdf1
    by (by eapply lookup_weaken).
  destruct (plot_radial_bar_run self df ws wd n σ Hdf) as (h1 & _ & ->).
  destruct (plot_radial_bar_run self df ws wd n σ1 Hdf1) as (h2 & _ & ->).
  simpl. eexists. repeat split; [done..|].
  intros [e He]. by destruct (df_getitem_list df [ws; wd] ≫= _).
Qed.

(** X11.  A call of [plot_radial_bar] can be repeated: the second of two
    calls in a row on the same object returns what the first returned and
    makes the same plotting calls again, since the first leaves the dataset
    as it was.  (When the first raises, the second is not reached.) *)
Theorem radial_bar_can_be_repeated (self : WindAnalysis) (ws wd : string)
    (n : Z) (σ : state) :
  ∃ evs : list event,
    calls (plot_radial_bar self ws wd n σ).2 = calls σ ++ evs ∧
    ((plot_radial_bar self ws wd n ≫= λ _, plot_radial_bar self ws wd n) σ).1
    = (plot_radial_bar self ws wd n σ).1 ∧
    calls ((plot_radial_bar self ws wd n
            ≫= λ _, plot_radial_bar self ws wd n) σ).2
    = calls σ ++ evs ++ evs.
Proof.
  rewrite bind_run.
  destruct (heap σ !! data self) as [df|] eqn:Hdf.
  - destruct (plot_radial_bar_run self df ws wd n σ Hdf) as (h1 & Hh1 & Hrun).
    destruct (plot_radial_bar_later self df ws wd n σ
                (plot_radial_bar self ws wd n σ).2 Hdf)
      as (evs & Hc & Hc1 & Hr1 & Hraise).
    { by rewrite Hrun. }
    exists evs. split; [done|].
    destruct (plot_radial_bar self ws wd n σ) as [[e|[]] σ1] eqn:Hplot;
      simpl in *.
    + assert (evs = []) as -> by (apply Hraise; by eexists).
      split; [done|]. by rewrite !app_nil_r in *.
    + split; [done|]. by rewrite Hc1, Hc, <-(assoc_L (++)).
  - rewrite plot_radial_bar_dangling by done. exists [].
    by rewrite !app_nil_r.
Qed.

(** X12.  Drawing the wind rose first does not change the radial chart
    drawn after it: when [plot_wind_rose] returns, a following
    [plot_radial_bar] on the same object returns and draws what it would
    have on its own, after the calls of the wind rose. *)
Theorem wind_rose_then_radial_bar (cm : string → result colormap)
    (bar : column → column → bool → list Q → colormap → result unit)
    (self : WindAnalysis) (ws wd : string) (bins : option (list Q))
    (cmap : cmap_arg) (n : Z) (σ : state) :
  (plot_wind_rose cm bar self ws wd bins cmap σ).1 = Ok tt →
  ∃ evs_rose evs_bar : list event,
    calls (plot_wind_rose cm bar self ws wd bins cmap σ).2
      = calls σ ++ evs_rose ∧
    calls (plot_radial_bar self ws wd n σ).2 = calls σ ++ evs_bar ∧
    ((plot_wind_rose cm bar self ws wd bins cmap
      ≫= λ _, plot_radial_bar self ws wd n) σ).1
    = (plot_radial_bar self ws wd n σ).1 ∧
    calls ((plot_wind_rose cm bar self ws wd bins cmap
            ≫= λ _, plot_radial_bar self ws wd n) σ).2
    = calls σ ++ evs_rose ++ evs_bar.
Proof.
  intros Hok. rewrite bind_run.
  destruct (heap σ !! data self) as [df|] eqn:Hdf.
  2: { by rewrite plot_wind_rose_dangling in Hok. }
  destruct (plot_wind_rose_run cm bar self df ws wd bins cmap σ Hdf)
    as (h1 & Hh1 & Hrun).
  destruct (plot_radial_bar_later self df ws wd n σ
              (plot_wind_rose cm bar self ws wd bins cmap σ).2 Hdf)
    as (evs & Hc & Hc1 & Hr1 & _).
  { by rewrite Hrun. }
  rewrite Hrun in Hok, Hc1, Hr1 |- *. simpl in *.
  eexists _, evs. split; [done|]. split; [done|].
  destruct (match df_getitem_list df [ws; wd] with
            | Raise e => _
            | Ok sel => _
            end) as [[e|[]] evs_rose]; simpl in *; [done|].
  split; [done|]. by rewrite Hc1, <-(assoc_L (++)).
Qed.

Lemma wind_rose_then_radial_bar_witness :
  let cm := λ name, Ok (Colormap name) in
  let bar := λ (_ _ : column) (_ : bool) (_ : list Q) (_ : colormap), Ok tt in
  let self := init 1%positive in
  let σ := State {[ 1%positive := frame4 ]} [] in
  ∃ evs_rose evs_bar : list event,
    calls (plot_wind_rose cm bar self "WS" "WD" None (CmapStr "coolwarm") σ).2
      = calls σ ++ evs_rose ∧
    calls (plot_radial_bar self "WS" "WD" 8 σ).2 = calls σ ++ evs_bar ∧
    ((plot_wind_rose cm bar self "WS" "WD" None (CmapStr "coolwarm")
      ≫= λ _, plot_radial_bar self "WS" "WD" 8) σ).1
    = (plot_radial_bar self "WS" "WD" 8 σ).1 ∧
    calls ((plot_wind_rose cm bar self "WS" "WD" None (CmapStr "coolwarm")
            ≫= λ _, plot_radial_bar self "WS" "WD" 8) σ).2
    = calls σ ++ evs_rose ++ evs_bar.
Proof.
  intros cm bar self σ.
  apply (wind_rose_then_radial_bar cm bar self "WS" "WD" None
           (CmapStr "coolwarm") 8 σ).
  reflexivity.
Defined.

(** ** Columns *)

(** X13.  Only the speed and the direction columns matter: two datasets
    with the same speed and direction columns give, with both methods, the
    same result and plotting calls, whatever their other columns hold; a
    value missing in another column does not remove the row. *)
Theorem other_columns_do_not_matter (cm : string → result colormap)
    (bar : column → column → bool → list Q → colormap → result unit)
    (self : WindAnalysis) (df df' : DataFrame) (ws wd : string)
    (speeds dirs : list cell) (n : Z) (bins : option (list Q))
    (cmap : cmap_arg) (σ σ' : state) :
  heap σ !! data self = Some df →
  heap σ' !! data self = Some df' →
  calls σ = calls σ' →
  wind_columns df ws wd speeds dirs →
  wind_columns df' ws wd speeds dirs →
  ((plot_radial_bar self ws wd n σ).1
     = (plot_radial_bar self ws wd n σ').1 ∧
   calls (plot_radial_bar self ws wd n σ).2
     = calls (plot_radial_bar self ws wd n σ').2) ∧
  ((plot_wind_rose cm bar self ws wd bins cmap σ).1
     = (plot_wind_rose cm bar self ws wd bins cmap σ').1 ∧
   calls (plot_wind_rose cm bar self ws wd bins cmap σ).2
     = calls (plot_wind_rose cm bar self ws wd bins cmap σ').2).
Proof.
  intros Hdf Hdf' Hcalls Hcols Hcols'.
  by eapply plots_of_observations.
Qed.

Lemma other_columns_do_not_matter_witness :
  let cm := λ name, Ok (Colormap name) in
  let bar := λ (_ _ : column) (_ : bool) (_ : list Q) (_ : colormap), Ok tt in
  let self := init 1%positive in
  let df := frame_of "WS" "WD" [Num 1; Num 2] [Num 0; Num 90] in
  let df' := [("Tamb", NumCol [NaN; Num 25]);
              ("WS", NumCol [Num 1; Num 2]);
              ("GHI", NumCol [Num 3; NaN]);
              ("WD", NumCol [Num 0; Num 90])] in
  let σ := State {[ 1%positive := df ]} [] in
  let σ' := State {[ 1%positive := df' ]} [] in
  ((plot_radial_bar self "WS" "WD" 8 σ).1
     = (plot_radial_bar self "WS" "WD" 8 σ').1 ∧
   calls (plot_radial_bar self "WS" "WD" 8 σ).2
     = calls (plot_radial_bar self "WS" "WD" 8 σ').2) ∧
  ((plot_wind_rose cm bar self "WS" "WD" None (CmapStr "coolwarm") σ).1
     = (plot_wind_rose cm bar self "WS" "WD" None (CmapStr "coolwarm") σ').1 ∧
   calls (plot_wind_rose cm bar self "WS" "WD" None (CmapStr "coolwarm") σ).2
     = calls (plot_wind_rose cm bar self "WS" "WD" None
                (CmapStr "coolwarm") σ').2).
Proof.
  intros cm bar self df df' σ σ'.
  apply (other_columns_do_not_matter cm bar self df df' "WS" "WD"
           [Num 1; Num 2] [Num 0; Num 90] 8 None (CmapStr "coolwarm") σ σ').
  - reflexivity.
  - reflexivity.
  - reflexivity.
  - repeat split; [reflexivity..|discriminate].
  - repeat split; [reflexivity..|discriminate].
Defined.

(** X14.  Naming the same column as speed and as direction makes
    [plot_radial_bar] raise [ValueError] without a plotting call: the
    selection then has two columns of that name, and what the name selects
    is no longer one column that could be binned. *)
Theorem same_column_twice_raises (self : WindAnalysis) (df : DataFrame)
    (ws : string) (c : column) (n : Z) (σ : state) :
  heap σ !! data self = Some df →
  df_getitem df ws = Ok c →
  (plot_radial_bar self ws ws n σ).1 = Raise ValueError ∧
  calls (plot_radial_bar self ws ws n σ).2 = calls σ.
Proof.
  intros Hdf Hc.
  destruct (plot_radial_bar_run self df ws ws n σ Hdf) as (h' & _ & ->).
  unfold df_getitem_list. simpl.
  rewrite (df_getitem_columns_named df ws c Hc). simpl.
  assert (radial_chart (dropna [(ws, c); (ws, c)]) ws ws n
          = Raise ValueError) as ->.
  { unfold radial_chart.
    assert (df_getitem (dropna [(ws, c); (ws, c)]) ws = Raise ValueError)
      as Hget.
    { unfold dropna, df_getitem, columns_named. simpl.
      rewrite !filter_cons, filter_nil. simpl.
      by rewrite !decide_True by done. }
    destruct (np_linspace 0 360 (n + 1) true) as [e|edges] eqn:Hlin.
    - unfold np_linspace in Hlin.
      destruct (n + 1 <? 0); [|discriminate]. by injection Hlin as <-.
    - by rewrite result_bind_Ok, Hget. }
  simpl. by rewrite app_nil_r.
Qed.

Lemma same_column_twice_raises_witness :
  let σ := State {[ 1%positive := frame4 ]} [] in
  (plot_radial_bar (init 1%positive) "WD" "WD" 8 σ).1 = Raise ValueError ∧
  calls (plot_radial_bar (init 1%positive) "WD" "WD" 8 σ).2 = calls σ.
Proof.
  intros σ.
  apply (same_column_twice_raises (init 1%positive) frame4 "WD"
           (NumCol [Num 0; Num 90; Num 180; Num 270]) 8 σ).
  - reflexivity.
  - reflexivity.
Defined.

Lemma groupby_mean_overwritten (wd : string) (speeds dirs : list cell)
    (cats : list string) (codes : list (option nat)) :
  "sector" ≠ wd →
  groupby_mean
    (df_setitem (frame_of "sector" wd speeds dirs) "sector"
       (CatCol cats codes))
    "sector" "sector"
  = Raise TypeError.
Proof.
  intros Hne.
  unfold groupby_mean, df_getitem, df_setitem, columns_named, frame_of.
  columns_by_name.
Qed.

(** X15.  The radial chart cannot be drawn for a speed column that is named
    "sector": the method keeps the sector of each row in a column of that
    name of its working frame, which replaces the speeds, and averaging
    then raises; no plotting call is made. *)
Theorem speed_column_named_sector_raises (self : WindAnalysis)
    (df : DataFrame) (wd : string) (speeds dirs : list cell) (n : Z)
    (σ : state) :
  heap σ !! data self = Some df →
  wind_columns df "sector" wd speeds dirs →
  (∃ e, (plot_radial_bar self "sector" wd n σ).1 = Raise e) ∧
  calls (plot_radial_bar self "sector" wd n σ).2 = calls σ.
Proof.
  intros Hdf Hcols.
  destruct (plot_radial_bar_run self df "sector" wd n σ Hdf)
    as (h' & _ & ->).
  rewrite (df_getitem_list_wind df "sector" wd speeds dirs) by done.
  rewrite result_bind_Ok, dropna_frame_of.
  destruct Hcols as (_ & _ & Hne).
  assert (∃ e, radial_chart
                 (frame_of "sector" wd
                    ((λ o, Num o.1) <$> observations speeds dirs)
                    ((λ o, Num o.2) <$> observations speeds dirs))
                 "sector" wd n = Raise e) as [e ->].
  { unfold radial_chart.
    destruct (np_linspace 0 360 (n + 1) true) as [e|bin_edges];
      [by eexists|]. rewrite result_bind_Ok.
    destruct (df_getitem_frame_of "sector" wd
                ((λ o, Num o.1) <$> observations speeds dirs)
                ((λ o, Num o.2) <$> observations speeds dirs) Hne)
      as [_ ->].
    rewrite result_bind_Ok.
    destruct (sector_labels bin_edges n) as [e|labels];
      [by eexists|]. rewrite result_bind_Ok.
    destruct (pd_cut _ bin_edges labels false) as [e|sector] eqn:Hcut;
      [by eexists|]. rewrite result_bind_Ok.
    unfold pd_cut in Hcut. repeat case_match; simplify_eq.
    rewrite groupby_mean_overwritten by done. by eexists. }
  simpl. rewrite app_nil_r. split; [by eexists|done].
Qed.

Lemma speed_column_named_sector_raises_witness :
  let df := frame_of "sector" "WD" [Num 1; Num 2] [Num 0; Num 90] in
  let σ := State {[ 1%positive := df ]} [] in
  (∃ e, (plot_radial_bar (init 1%positive) "sector" "WD" 8 σ).1 = Raise e) ∧
  calls (plot_radial_bar (init 1%positive) "sector" "WD" 8 σ).2 = calls σ.
Proof.
  intros df σ.
  apply (speed_column_named_sector_raises (init 1%positive) df "WD"
           [Num 1; Num 2] [Num 0; Num 90] 8 σ).
  - reflexivity.
  - repeat split; [reflexivity..|discriminate].
Defined.
